(** * shelvery: the RDS backup adapter (shelvery/rds_backup.py)

    A shallow embedding of [ShelveryRDSBackup].  The adapter is a thin layer
    of provider calls, so the embedding keeps three things explicit:

    - the provider (boto3's RDS client) is a parameter: a record of
      functions from a provider-side state to an answer or an error code;
    - every call the adapter issues is appended to a trace, so that "which
      call, with which arguments" is a statement about a list;
    - Python exceptions are values of [exn]; an exception leaves the calls
      issued so far in place.

    The two [while] loops take fuel; a run that spends it ends in
    [OutOfFuel], which is not a result of the Python code. *)

From stdpp Require Import gmap strings list fin_maps sorting.

Open Scope string_scope.
Open Scope list_scope.
Open Scope nat_scope.

(** ** Python values *)

(** Exceptions the adapter can end in.  [Exception], [IndexError] and
    [KeyError] are raised by the adapter's own statements ([raise], list
    indexing, dict lookup); [ClientError] is an error answered by the
    provider, passed on unchanged. *)
Inductive exn : Type :=
| Exception (msg : string)
| IndexError
| KeyError (key : string)
| ClientError (code : string).

(** [type(e).__name__] *)
Definition exn_class (e : exn) : string :=
  match e with
  | Exception _ => "Exception"
  | IndexError => "IndexError"
  | KeyError _ => "KeyError"
  | ClientError _ => "ClientError"
  end.

Inductive outcome (A : Type) : Type :=
| Return (a : A)
| Raise (e : exn)
| OutOfFuel.
Arguments Return {A} a.
Arguments Raise {A} e.
Arguments OutOfFuel {A}.

(** ** Provider data *)

(** One element of a [TagList]: [{'Key': k, 'Value': v}]. *)
Record Tag : Type := { Key : string; Value : string }.

(** [dict(map(lambda t: (t['Key'], t['Value']), tags))]: later entries
    overwrite earlier ones with the same key. *)
Definition dict_of_tags (tags : list Tag) : gmap string string :=
  foldl (λ d t, <[Key t := Value t]> d) ∅ tags.

(** [list(map(lambda k: {'Key': k, 'Value': tags[k]}, tags))].  Python walks
    the keys in insertion order; the order of the list plays no role below
    because the keys of a dict are distinct. *)
Definition tags_of_dict (tags : gmap string string) : list Tag :=
  (λ kv, {| Key := kv.1; Value := kv.2 |}) <$> map_to_list tags.

(** [k in d] *)
Definition dict_mem (k : string) (d : gmap string string) : bool :=
  bool_decide (is_Some (d !! k)).

(** The fields of a snapshot the adapter reads.  [SnapshotCreateTime] is a
    [datetime]; its order is that of an integer timestamp. *)
Record DBSnapshot : Type := {
  DBSnapshotIdentifier : string;
  DBSnapshotArn : string;
  SnapshotCreateTime : Z;
  Status : string
}.

Record DBInstance : Type := {
  DBInstanceIdentifier : string;
  DBInstanceArn : string;
  InstanceCreateTime : Z
}.

(** A page of [describe_db_snapshots]; [SnapshotsMarker = Some m] is a
    response that holds the key ['Marker']. *)
Record DBSnapshotMessage : Type := {
  DBSnapshots : list DBSnapshot;
  SnapshotsMarker : option string
}.

Record DBInstanceMessage : Type := {
  DBInstances : list DBInstance;
  InstancesMarker : option string
}.

(** ** Keyword arguments of the provider calls

    [None] is an argument the call does not pass (or passes as [None]). *)
Module DescribeDBSnapshots.
Record args : Type := {
  DBInstanceIdentifier : option string;
  DBSnapshotIdentifier : option string;
  SnapshotType : option string;
  MaxRecords : option nat;
  Marker : option string
}.
Definition none : args :=
  {| DBInstanceIdentifier := None; DBSnapshotIdentifier := None;
     SnapshotType := None; MaxRecords := None; Marker := None |}.
Definition by_id (backup_id : option string) : args :=
  {| DBInstanceIdentifier := None; DBSnapshotIdentifier := backup_id;
     SnapshotType := None; MaxRecords := None; Marker := None |}.
End DescribeDBSnapshots.

Module CreateDBSnapshot.
Record args : Type := {
  DBSnapshotIdentifier : option string;
  DBInstanceIdentifier : option string
}.
End CreateDBSnapshot.

Module CopyDBSnapshot.
Record args : Type := {
  SourceDBSnapshotIdentifier : option string;
  TargetDBSnapshotIdentifier : option string;
  SourceRegion : option string;
  CopyTags : bool
}.
End CopyDBSnapshot.

Module DeleteDBSnapshot.
Record args : Type := {
  DBSnapshotIdentifier : option string;
  DBInstanceIdentifier : option string
}.
End DeleteDBSnapshot.

Module AddTagsToResource.
Record args : Type := {
  ResourceName : string;
  Tags : list Tag
}.
End AddTagsToResource.

Module ModifyDBSnapshotAttribute.
Record args : Type := {
  DBSnapshotIdentifier : string;
  AttributeName : string;
  ValuesToAdd : list string
}.
End ModifyDBSnapshotAttribute.

(** A call as the provider sees it. *)
Inductive request : Type :=
| describe_db_snapshots_call (a : DescribeDBSnapshots.args)
| describe_db_instances_call (Marker : option string)
| list_tags_for_resource_call (ResourceName : string)
| create_db_snapshot_call (a : CreateDBSnapshot.args)
| copy_db_snapshot_call (a : CopyDBSnapshot.args)
| delete_db_snapshot_call (a : DeleteDBSnapshot.args)
| add_tags_to_resource_call (a : AddTagsToResource.args)
| modify_db_snapshot_attribute_call (a : ModifyDBSnapshotAttribute.args).

(** The calls that change the provider's catalog. *)
Definition is_mutation (r : request) : bool :=
  match r with
  | describe_db_snapshots_call _ | describe_db_instances_call _
  | list_tags_for_resource_call _ => false
  | _ => true
  end.

(** A call with the region of the client that issued it. *)
Record call : Type := { call_region : string; call_request : request }.

(** The provider: what each call answers in a state [W] of its catalog.
    [inl code] is an error answer.  The describe and list calls read the
    catalog; the others answer the catalog after the change. *)
Record Provider (W : Type) : Type := {
  api_describe_db_snapshots :
    W → string → DescribeDBSnapshots.args → string + DBSnapshotMessage;
  api_describe_db_instances :
    W → string → option string → string + DBInstanceMessage;
  api_list_tags_for_resource : W → string → string → string + list Tag;
  api_create_db_snapshot : W → string → CreateDBSnapshot.args → string + W;
  api_copy_db_snapshot : W → string → CopyDBSnapshot.args → string + W;
  api_delete_db_snapshot : W → string → DeleteDBSnapshot.args → string + W;
  api_add_tags_to_resource : W → string → AddTagsToResource.args → string + W;
  api_modify_db_snapshot_attribute :
    W → string → ModifyDBSnapshotAttribute.args → string + W
}.
Arguments api_describe_db_snapshots {W} _ _ _ _.
Arguments api_describe_db_instances {W} _ _ _ _.
Arguments api_list_tags_for_resource {W} _ _ _ _.
Arguments api_create_db_snapshot {W} _ _ _ _.
Arguments api_copy_db_snapshot {W} _ _ _ _.
Arguments api_delete_db_snapshot {W} _ _ _ _.
Arguments api_add_tags_to_resource {W} _ _ _ _.
Arguments api_modify_db_snapshot_attribute {W} _ _ _ _.

(** ** Descriptors *)

(** Modelled from the spec: the class [EntityResource]
    (shelvery/entity_resource.py is not among the sources).  The spec's data
    model lists the four fields, in the order the adapter passes them to the
    constructor. *)
Module EntityResource.
Record t : Type := {
  entity_id : string;
  region : string;
  date_created : Z;
  tags : gmap string string
}.
End EntityResource.

(** Modelled from the spec: the class [BackupResource]
    (shelvery/backup_resource.py is not among the sources).  These are the
    attributes the adapter reads and assigns; each may hold [None]. *)
Record BackupResource : Type := {
  name : option string;
  entity_id : option string;
  backup_id : option string;
  tags : gmap string string
}.

(** [backup_resource.backup_id = v] *)
Definition set_backup_id (b : BackupResource) (v : option string) : BackupResource :=
  {| name := name b; entity_id := entity_id b; backup_id := v; tags := tags b |}.

(** Modelled from the spec: [BackupResource.construct(tag_prefix, backup_id,
    tags)] (shelvery/backup_resource.py is not among the sources).  The spec
    says only that the descriptor is reconstructed from the artifact's id
    and its tag mapping; the attributes it does not determine stay [None]. *)
Definition construct (tag_prefix backup_id : string)
    (d_tags : gmap string string) : BackupResource :=
  {| name := None; entity_id := None; backup_id := Some backup_id; tags := d_tags |}.

(** ** Process-wide settings *)

(** What the adapter reads from its surroundings: the session's region
    ([boto3.session.Session().region_name], also the region of
    [boto3.client('rds')]) and [RuntimeConfig.get_rds_mode()]. *)
Record Env : Type := { region_name : string; rds_mode : string }.

(** The provider's catalog and the calls issued so far, oldest first. *)
Record state (W : Type) : Type := { world : W; trace : list call }.
Arguments world {W} _.
Arguments trace {W} _.

(** ** Python built-ins *)

(** [sorted(l, key=key, reverse=True)].  Python's sort is stable, also with
    [reverse=True]: elements with equal keys keep their order.  A stable
    sort has one result, so the insertion sort below stands for it. *)
Fixpoint insert_desc {A : Type} (key : A → Z) (x : A) (l : list A) : list A :=
  match l with
  | [] => [x]
  | y :: l' =>
      if (key y <=? key x)%Z then x :: y :: l' else y :: insert_desc key x l'
  end.

Fixpoint sorted_reverse {A : Type} (key : A → Z) (l : list A) : list A :=
  match l with
  | [] => []
  | x :: l' => insert_desc key x (sorted_reverse key l')
  end.

(** In descending order of the key. *)
Definition descending {A : Type} (key : A → Z) (l : list A) : Prop :=
  StronglySorted (λ x y, (key y ≤ key x)%Z) l.

(** ** The adapter *)

Section Adapter.

Context {W : Type} (P : Provider W).

(** [RuntimeConfig.RDS_CREATE_SNAPSHOT], [RuntimeConfig.RDS_COPY_AUTOMATED_SNAPSHOT]
    and [BackupResource.BACKUP_MARKER_TAG]: constants of modules that are not
    among the sources. *)
Variables RDS_CREATE_SNAPSHOT RDS_COPY_AUTOMATED_SNAPSHOT BACKUP_MARKER_TAG : string.

(** A computation of the adapter: it reads the settings, issues provider
    calls and returns, raises, or is cut off. *)
Definition M (A : Type) : Type := Env → state W → outcome A * state W.

#[local] Instance M_ret : MRet M := λ A a _ st, (Return a, st).

#[local] Instance M_bind : MBind M := λ A B k m env st,
  match m env st with
  | (Return a, st') => k a env st'
  | (Raise e, st') => (Raise e, st')
  | (OutOfFuel, st') => (OutOfFuel, st')
  end.

Definition raise {A : Type} (e : exn) : M A := λ _ st, (Raise e, st).

Definition out_of_fuel {A : Type} : M A := λ _ st, (OutOfFuel, st).

(** [l[0]] *)
Definition index0 {A : Type} (l : list A) : M A :=
  match l with
  | [] => raise IndexError
  | x :: _ => mret x
  end.

(** [d[k]] *)
Definition dict_get (d : gmap string string) (k : string) : M string :=
  match d !! k with
  | Some v => mret v
  | None => raise (KeyError k)
  end.

(** [boto3.client('rds', region_name=r)]; without [region_name] the client
    is bound to the session's region.  A client is the region it talks to. *)
Definition boto3_client (region : option string) : M string :=
  λ env st, (Return (default (region_name env) region), st).

(** [boto3.session.Session().region_name] *)
Definition session_region_name : M string :=
  λ env st, (Return (region_name env), st).

(** [RuntimeConfig.get_rds_mode()] *)
Definition get_rds_mode : M string :=
  λ env st, (Return (rds_mode env), st).

Definition issued (st : state W) (rds_client : string) (r : request) : list call :=
  trace st ++ [{| call_region := rds_client; call_request := r |}].

(** A describe or list call: the catalog stays as it is. *)
Definition read_call {A : Type} (rds_client : string) (r : request)
    (answer : string + A) : M A :=
  λ _ st,
    let st' := {| world := world st; trace := issued st rds_client r |} in
    match answer with
    | inl code => (Raise (ClientError code), st')
    | inr a => (Return a, st')
    end.

(** A call that changes the catalog, unless the provider answers an error. *)
Definition write_call (rds_client : string) (r : request)
    (answer : W → string + W) : M unit :=
  λ _ st,
    match answer (world st) with
    | inl code =>
        (Raise (ClientError code),
         {| world := world st; trace := issued st rds_client r |})
    | inr w' => (Return (), {| world := w'; trace := issued st rds_client r |})
    end.

Definition describe_db_snapshots (rds_client : string)
    (a : DescribeDBSnapshots.args) : M DBSnapshotMessage :=
  λ env st,
    read_call rds_client (describe_db_snapshots_call a)
      (api_describe_db_snapshots P (world st) rds_client a) env st.

Definition describe_db_instances (rds_client : string)
    (Marker : option string) : M DBInstanceMessage :=
  λ env st,
    read_call rds_client (describe_db_instances_call Marker)
      (api_describe_db_instances P (world st) rds_client Marker) env st.

Definition list_tags_for_resource (rds_client : string)
    (ResourceName : string) : M (list Tag) :=
  λ env st,
    read_call rds_client (list_tags_for_resource_call ResourceName)
      (api_list_tags_for_resource P (world st) rds_client ResourceName) env st.

Definition create_db_snapshot (rds_client : string)
    (a : CreateDBSnapshot.args) : M unit :=
  write_call rds_client (create_db_snapshot_call a)
    (λ w, api_create_db_snapshot P w rds_client a).

Definition copy_db_snapshot (rds_client : string)
    (a : CopyDBSnapshot.args) : M unit :=
  write_call rds_client (copy_db_snapshot_call a)
    (λ w, api_copy_db_snapshot P w rds_client a).

Definition delete_db_snapshot (rds_client : string)
    (a : DeleteDBSnapshot.args) : M unit :=
  write_call rds_client (delete_db_snapshot_call a)
    (λ w, api_delete_db_snapshot P w rds_client a).

Definition add_tags_to_resource (rds_client : string)
    (a : AddTagsToResource.args) : M unit :=
  write_call rds_client (add_tags_to_resource_call a)
    (λ w, api_add_tags_to_resource P w rds_client a).

Definition modify_db_snapshot_attribute (rds_client : string)
    (a : ModifyDBSnapshotAttribute.args) : M unit :=
  write_call rds_client (modify_db_snapshot_attribute_call a)
    (λ w, api_modify_db_snapshot_attribute P w rds_client a).

(** *** The methods of [ShelveryRDSBackup] *)

Definition is_backup_available (backup_region backup_id : string) : M bool :=
  rds_client ← boto3_client (Some backup_region);
  snapshots ← describe_db_snapshots rds_client
                 (DescribeDBSnapshots.by_id (Some backup_id));
  snapshot ← index0 (DBSnapshots snapshots);
  mret (bool_decide (Status snapshot = "available")).

Definition get_resource_type : string := "RDS Instance".

Definition get_engine_type : string := "rds".

Definition backup_from_instance (backup_resource : BackupResource) : M BackupResource :=
  rds_client ← boto3_client None;
  _ ← create_db_snapshot rds_client
        {| CreateDBSnapshot.DBSnapshotIdentifier := name backup_resource;
           CreateDBSnapshot.DBInstanceIdentifier := entity_id backup_resource |};
  mret (set_backup_id backup_resource (name backup_resource)).

Definition backup_from_latest_automated (backup_resource : BackupResource)
    : M BackupResource :=
  rds_client ← boto3_client None;
  auto_snapshots ← describe_db_snapshots rds_client
    {| DescribeDBSnapshots.DBInstanceIdentifier := entity_id backup_resource;
       DescribeDBSnapshots.DBSnapshotIdentifier := None;
       DescribeDBSnapshots.SnapshotType := Some "automated";
       DescribeDBSnapshots.MaxRecords := Some 20;
       DescribeDBSnapshots.Marker := None |};
  let auto_snapshots :=
    sorted_reverse SnapshotCreateTime (DBSnapshots auto_snapshots) in
  snapshot ← index0 auto_snapshots;
  let automated_snapshot_id := DBSnapshotIdentifier snapshot in
  _ ← copy_db_snapshot rds_client
        {| CopyDBSnapshot.SourceDBSnapshotIdentifier := Some automated_snapshot_id;
           CopyDBSnapshot.TargetDBSnapshotIdentifier := name backup_resource;
           CopyDBSnapshot.SourceRegion := None;
           CopyDBSnapshot.CopyTags := false |};
  mret (set_backup_id backup_resource (name backup_resource)).

(** The message of the exception [backup_resource] raises. *)
Definition unsupported_mode_message : string :=
  "Only " +:+ RDS_COPY_AUTOMATED_SNAPSHOT +:+ " and " +:+
  RDS_CREATE_SNAPSHOT +:+ " rds backup " +:+
  "modes supported - set rds backup mode using rds_backup_mode configuration option ".

Definition backup_resource (backup_resource : BackupResource) : M BackupResource :=
  mode ← get_rds_mode;
  if bool_decide (mode = RDS_CREATE_SNAPSHOT)
  then backup_from_instance backup_resource
  else
    mode ← get_rds_mode;
    if bool_decide (mode = RDS_COPY_AUTOMATED_SNAPSHOT)
    then backup_from_latest_automated backup_resource
    else raise (Exception unsupported_mode_message).

Definition delete_backup (backup_resource : BackupResource) : M unit :=
  rds_client ← boto3_client None;
  delete_db_snapshot rds_client
    {| DeleteDBSnapshot.DBSnapshotIdentifier := None;
       DeleteDBSnapshot.DBInstanceIdentifier := entity_id backup_resource |}.

Definition tag_backup_resource (backup_resource : BackupResource) : M unit :=
  rds_client ← boto3_client None;
  snapshots ← describe_db_snapshots rds_client
                 (DescribeDBSnapshots.by_id (backup_id backup_resource));
  snapshot ← index0 (DBSnapshots snapshots);
  let snapshot_arn := DBSnapshotArn snapshot in
  add_tags_to_resource rds_client
    {| AddTagsToResource.ResourceName := snapshot_arn;
       AddTagsToResource.Tags := tags_of_dict (tags backup_resource) |}.

Definition share_backup_with_account (backup_region backup_id aws_account_id : string)
    : M unit :=
  rds_client ← boto3_client (Some backup_region);
  modify_db_snapshot_attribute rds_client
    {| ModifyDBSnapshotAttribute.DBSnapshotIdentifier := backup_id;
       ModifyDBSnapshotAttribute.AttributeName := "restore";
       ModifyDBSnapshotAttribute.ValuesToAdd := [aws_account_id] |}.

Definition copy_backup_to_region (backup_id region : string) : M string :=
  local_region ← session_region_name;
  client_local ← boto3_client None;
  rds_client ← boto3_client (Some region);
  snapshots ← describe_db_snapshots client_local
                 (DescribeDBSnapshots.by_id (Some backup_id));
  snapshot ← index0 (DBSnapshots snapshots);
  _ ← copy_db_snapshot rds_client
        {| CopyDBSnapshot.SourceDBSnapshotIdentifier := Some (DBSnapshotArn snapshot);
           CopyDBSnapshot.TargetDBSnapshotIdentifier := Some backup_id;
           CopyDBSnapshot.SourceRegion := Some local_region;
           CopyDBSnapshot.CopyTags := false |};
  mret backup_id.

Definition get_backup_resource (backup_region backup_id : string) : M BackupResource :=
  rds_client ← boto3_client (Some backup_region);
  snapshots ← describe_db_snapshots rds_client
                 (DescribeDBSnapshots.by_id (Some backup_id));
  snapshot ← index0 (DBSnapshots snapshots);
  tags ← list_tags_for_resource rds_client (DBSnapshotArn snapshot);
  let d_tags := dict_of_tags tags in
  tag_name ← dict_get d_tags "shelvery:tag_name";
  mret (construct tag_name backup_id d_tags).

(** The loop of [get_all_instances]: one unit of fuel per turn. *)
Fixpoint get_all_instances_loop (fuel : nat) (rds_client : string)
    (db_instances : list DBInstance) (temp_instances : DBInstanceMessage)
    : M (list DBInstance) :=
  match InstancesMarker temp_instances with
  | None => mret db_instances
  | Some marker =>
      match fuel with
      | O => out_of_fuel
      | S fuel' =>
          temp_instances ← describe_db_instances rds_client (Some marker);
          get_all_instances_loop fuel' rds_client
            (db_instances ++ DBInstances temp_instances) temp_instances
      end
  end.

Definition get_all_instances (fuel : nat) (rds_client : string) : M (list DBInstance) :=
  let db_instances := [] in
  temp_instances ← describe_db_instances rds_client None;
  get_all_instances_loop fuel rds_client
    (db_instances ++ DBInstances temp_instances) temp_instances.

(** The [for] loop of [get_entities_to_backup]. *)
Fixpoint tagged_entities (tag_name local_region rds_client : string)
    (db_instances : list DBInstance) (db_entities : list EntityResource.t)
    : M (list EntityResource.t) :=
  match db_instances with
  | [] => mret db_entities
  | instance :: rest =>
      tags ← list_tags_for_resource rds_client (DBInstanceArn instance);
      let d_tags := dict_of_tags tags in
      if dict_mem tag_name d_tags
      then
        let resource :=
          {| EntityResource.entity_id := DBInstanceIdentifier instance;
             EntityResource.region := local_region;
             EntityResource.date_created := InstanceCreateTime instance;
             EntityResource.tags := d_tags |} in
        tagged_entities tag_name local_region rds_client rest (db_entities ++ [resource])
      else tagged_entities tag_name local_region rds_client rest db_entities
  end.

Definition get_entities_to_backup (fuel : nat) (tag_name : string)
    : M (list EntityResource.t) :=
  local_region ← session_region_name;
  rds_client ← boto3_client None;
  let db_entities := [] in
  db_instances ← get_all_instances fuel rds_client;
  tagged_entities tag_name local_region rds_client db_instances db_entities.

(** The [for] loop of [get_shelvery_backups_only]; the call of
    [self.logger.info] writes a log line and is left out. *)
Fixpoint shelvery_backups (marker_tag backup_tag_prefix rds_client : string)
    (all_snapshots : list DBSnapshot) (all_backups : list BackupResource)
    : M (list BackupResource) :=
  match all_snapshots with
  | [] => mret all_backups
  | snap :: rest =>
      tags ← list_tags_for_resource rds_client (DBSnapshotArn snap);
      let d_tags := dict_of_tags tags in
      if dict_mem marker_tag d_tags
      then shelvery_backups marker_tag backup_tag_prefix rds_client rest
             (all_backups ++
              [construct backup_tag_prefix (DBSnapshotIdentifier snap) d_tags])
      else shelvery_backups marker_tag backup_tag_prefix rds_client rest all_backups
  end.

Definition get_shelvery_backups_only (all_snapshots : list DBSnapshot)
    (backup_tag_prefix rds_client : string) : M (list BackupResource) :=
  let all_backups := [] in
  let marker_tag := backup_tag_prefix +:+ ":" +:+ BACKUP_MARKER_TAG in
  shelvery_backups marker_tag backup_tag_prefix rds_client all_snapshots all_backups.

(** The loop of [collect_all_snapshots]: the call in its body passes no
    argument, as in the source. *)
Fixpoint collect_all_snapshots_loop (fuel : nat) (rds_client : string)
    (all_snapshots : list DBSnapshot) (tmp_snapshots : DBSnapshotMessage)
    : M (list DBSnapshot) :=
  match SnapshotsMarker tmp_snapshots with
  | None => mret all_snapshots
  | Some _ =>
      match fuel with
      | O => out_of_fuel
      | S fuel' =>
          tmp_snapshots ← describe_db_snapshots rds_client DescribeDBSnapshots.none;
          collect_all_snapshots_loop fuel' rds_client
            (all_snapshots ++ DBSnapshots tmp_snapshots) tmp_snapshots
      end
  end.

Definition collect_all_snapshots (fuel : nat) (rds_client : string)
    : M (list DBSnapshot) :=
  let all_snapshots := [] in
  tmp_snapshots ← describe_db_snapshots rds_client DescribeDBSnapshots.none;
  collect_all_snapshots_loop fuel rds_client
    (all_snapshots ++ DBSnapshots tmp_snapshots) tmp_snapshots.

Definition get_existing_backups (fuel : nat) (backup_tag_prefix : string)
    : M (list BackupResource) :=
  rds_client ← boto3_client None;
  all_snapshots ← collect_all_snapshots fuel rds_client;
  all_backups ← get_shelvery_backups_only all_snapshots backup_tag_prefix rds_client;
  mret all_backups.

End Adapter.

Arguments M W A : clear implicits.

(** ** What a provider serves

    [instance_pages P w client marker pages]: asked with [marker] and then
    with each marker it answers, the provider answers the instance lists
    [pages], one call each, and no marker with the last. *)
Fixpoint instance_pages {W : Type} (P : Provider W) (w : W) (rds_client : string)
    (marker : option string) (pages : list (list DBInstance)) : Prop :=
  match pages with
  | [] => False
  | p :: rest =>
      match api_describe_db_instances P w rds_client marker with
      | inl _ => False
      | inr resp =>
          DBInstances resp = p
          ∧ match InstancesMarker resp with
            | None => rest = []
            | Some m => instance_pages P w rds_client (Some m) rest
            end
      end
  end.

(** The descriptor [get_entities_to_backup] builds for the instance [i]
    when the provider answers the tag list [tag_list i] for it. *)
Definition entity_of (local_region : string) (tag_list : DBInstance → list Tag)
    (i : DBInstance) : EntityResource.t :=
  {| EntityResource.entity_id := DBInstanceIdentifier i;
     EntityResource.region := local_region;
     EntityResource.date_created := InstanceCreateTime i;
     EntityResource.tags := dict_of_tags (tag_list i) |}.

(** The tag list holds the key [k] itself. *)
Definition has_key (k : string) (tag_list : list Tag) : Prop :=
  Exists (λ t, Key t = k) tag_list.

#[global] Instance has_key_dec (k : string) (tag_list : list Tag) :
  Decision (has_key k tag_list).
Proof. unfold has_key. apply _. Defined.

(** ** An in-memory provider

    A catalog per region that answers the eight calls the way the spec's
    provider boundary describes them: describe calls filter and page,
    add-tags adds or overwrites keys and leaves the others, a copy carries
    tags only when asked to, and a describe call that names a snapshot the
    region does not hold answers the error [DBSnapshotNotFound].  The
    adapter is run against it on concrete catalogs. *)
Module Catalog.

(** A snapshot with what the catalog knows about it besides the fields the
    adapter reads. *)
Record entry : Type := {
  snapshot : DBSnapshot;
  source_instance : string;
  snapshot_type : string;
  restore_accounts : list string
}.

Record region : Type := {
  instances : list DBInstance;
  snapshots : list entry;
  tag_store : gmap string (gmap string string)
}.

Record t : Type := {
  regions : gmap string region;
  page_size : nat;
  clock : Z
}.

Definition empty_region : region :=
  {| instances := []; snapshots := []; tag_store := ∅ |}.

Definition region_of (w : t) (r : string) : region :=
  default empty_region (regions w !! r).

Definition with_region (w : t) (r : string) (c : region) : t :=
  {| regions := <[r := c]> (regions w); page_size := page_size w; clock := clock w |}.

Fixpoint drop_until {A : Type} (is_start : A → bool) (l : list A) : list A :=
  match l with
  | [] => []
  | x :: l' => if is_start x then l else drop_until is_start l'
  end.

(** One page of [l]: it starts at the element the marker names, and the
    marker it answers names the first element left over. *)
Definition page {A : Type} (ident : A → string) (size : nat)
    (marker : option string) (l : list A) : list A * option string :=
  let rest :=
    match marker with
    | None => l
    | Some m => drop_until (λ x, bool_decide (ident x = m)) l
    end in
  (take size rest, ident <$> head (drop size rest)).

Definition wanted (o : option string) (s : string) : bool :=
  match o with
  | None => true
  | Some s' => bool_decide (s = s')
  end.

Definition selected (a : DescribeDBSnapshots.args) (e : entry) : bool :=
  wanted (DescribeDBSnapshots.DBSnapshotIdentifier a) (DBSnapshotIdentifier (snapshot e))
  && wanted (DescribeDBSnapshots.DBInstanceIdentifier a) (source_instance e)
  && wanted (DescribeDBSnapshots.SnapshotType a) (snapshot_type e).

Definition describe_db_snapshots (w : t) (r : string)
    (a : DescribeDBSnapshots.args) : string + DBSnapshotMessage :=
  let found := snapshot <$> List.filter (selected a) (snapshots (region_of w r)) in
  let size := default (page_size w) (DescribeDBSnapshots.MaxRecords a) in
  let p := page DBSnapshotIdentifier size (DescribeDBSnapshots.Marker a) found in
  match DescribeDBSnapshots.DBSnapshotIdentifier a, found with
  | Some _, [] => inl "DBSnapshotNotFound"
  | _, _ => inr {| DBSnapshots := p.1; SnapshotsMarker := p.2 |}
  end.

Definition describe_db_instances (w : t) (r : string)
    (marker : option string) : string + DBInstanceMessage :=
  let p := page DBInstanceIdentifier (page_size w) marker (instances (region_of w r)) in
  inr {| DBInstances := p.1; InstancesMarker := p.2 |}.

Definition tags_at (c : region) (arn : string) : gmap string string :=
  default ∅ (tag_store c !! arn).

Definition list_tags_for_resource (w : t) (r arn : string) : string + list Tag :=
  inr (tags_of_dict (tags_at (region_of w r) arn)).

Definition snapshot_arn (r ident : string) : string :=
  "arn:aws:rds:" +:+ r +:+ ":snapshot:" +:+ ident.

Definition has_snapshot (c : region) (ident : string) : bool :=
  existsb (λ e, bool_decide (DBSnapshotIdentifier (snapshot e) = ident)) (snapshots c).

Definition new_entry (w : t) (r ident instance : string) : entry :=
  {| snapshot := {| DBSnapshotIdentifier := ident;
                    DBSnapshotArn := snapshot_arn r ident;
                    SnapshotCreateTime := clock w;
                    Status := "creating" |};
     source_instance := instance;
     snapshot_type := "manual";
     restore_accounts := [] |}.

Definition add_entry (c : region) (e : entry) (e_tags : gmap string string) : region :=
  {| instances := instances c;
     snapshots := snapshots c ++ [e];
     tag_store := <[DBSnapshotArn (snapshot e) := e_tags]> (tag_store c) |}.

Definition create_db_snapshot (w : t) (r : string)
    (a : CreateDBSnapshot.args) : string + t :=
  match CreateDBSnapshot.DBSnapshotIdentifier a, CreateDBSnapshot.DBInstanceIdentifier a with
  | Some ident, Some instance =>
      let c := region_of w r in
      if negb (existsb (λ i, bool_decide (DBInstanceIdentifier i = instance)) (instances c))
      then inl "DBInstanceNotFound"
      else if has_snapshot c ident then inl "DBSnapshotAlreadyExists"
      else inr (with_region w r (add_entry c (new_entry w r ident instance) ∅))
  | _, _ => inl "ParamValidationError"
  end.

(** The source of a copy is named by its identifier or by its ARN. *)
Definition find_source (c : region) (source : string) : option entry :=
  List.find (λ e, bool_decide (DBSnapshotIdentifier (snapshot e) = source)
                  || bool_decide (DBSnapshotArn (snapshot e) = source)) (snapshots c).

Definition copy_db_snapshot (w : t) (r : string)
    (a : CopyDBSnapshot.args) : string + t :=
  match CopyDBSnapshot.SourceDBSnapshotIdentifier a,
        CopyDBSnapshot.TargetDBSnapshotIdentifier a with
  | Some source, Some target =>
      let from := region_of w (default r (CopyDBSnapshot.SourceRegion a)) in
      let c := region_of w r in
      match find_source from source with
      | None => inl "DBSnapshotNotFound"
      | Some e =>
          if has_snapshot c target then inl "DBSnapshotAlreadyExists"
          else
            let e_tags :=
              if CopyDBSnapshot.CopyTags a
              then tags_at from (DBSnapshotArn (snapshot e)) else ∅ in
            inr (with_region w r
                   (add_entry c (new_entry w r target (source_instance e)) e_tags))
      end
  | _, _ => inl "ParamValidationError"
  end.

(** The provider deletes by snapshot identifier only; a call without one is
    refused. *)
Definition delete_db_snapshot (w : t) (r : string)
    (a : DeleteDBSnapshot.args) : string + t :=
  match DeleteDBSnapshot.DBSnapshotIdentifier a, DeleteDBSnapshot.DBInstanceIdentifier a with
  | Some ident, None =>
      let c := region_of w r in
      if has_snapshot c ident
      then inr (with_region w r
                  {| instances := instances c;
                     snapshots :=
                       List.filter
                         (λ e, negb (bool_decide (DBSnapshotIdentifier (snapshot e) = ident)))
                         (snapshots c);
                     tag_store := delete (snapshot_arn r ident) (tag_store c) |})
      else inl "DBSnapshotNotFound"
  | _, _ => inl "ParamValidationError"
  end.

(** Adds the tags, overwriting equal keys; the resource's other tags stay. *)
Definition add_tags_to_resource (w : t) (r : string)
    (a : AddTagsToResource.args) : string + t :=
  let c := region_of w r in
  let arn := AddTagsToResource.ResourceName a in
  let new_tags :=
    foldl (λ d tg, <[Key tg := Value tg]> d) (tags_at c arn) (AddTagsToResource.Tags a) in
  inr (with_region w r
         {| instances := instances c;
            snapshots := snapshots c;
            tag_store := <[arn := new_tags]> (tag_store c) |}).

Definition modify_db_snapshot_attribute (w : t) (r : string)
    (a : ModifyDBSnapshotAttribute.args) : string + t :=
  let c := region_of w r in
  let ident := ModifyDBSnapshotAttribute.DBSnapshotIdentifier a in
  if has_snapshot c ident
  then inr (with_region w r
              {| instances := instances c;
                 snapshots :=
                   (λ e, if bool_decide (DBSnapshotIdentifier (snapshot e) = ident)
                         then {| snapshot := snapshot e;
                                 source_instance := source_instance e;
                                 snapshot_type := snapshot_type e;
                                 restore_accounts :=
                                   restore_accounts e ++
                                   ModifyDBSnapshotAttribute.ValuesToAdd a |}
                         else e) <$> snapshots c;
                 tag_store := tag_store c |})
  else inl "DBSnapshotNotFound".

Definition provider : Provider t :=
  {| api_describe_db_snapshots := describe_db_snapshots;
     api_describe_db_instances := describe_db_instances;
     api_list_tags_for_resource := list_tags_for_resource;
     api_create_db_snapshot := create_db_snapshot;
     api_copy_db_snapshot := copy_db_snapshot;
     api_delete_db_snapshot := delete_db_snapshot;
     api_add_tags_to_resource := add_tags_to_resource;
     api_modify_db_snapshot_attribute := modify_db_snapshot_attribute |}.

End Catalog.

(** ** Sample catalogs *)

Module Sample.

Definition CREATE : string := "CREATE_SNAPSHOT".
Definition COPY : string := "COPY_AUTOMATED_SNAPSHOT".

Definition env (mode : string) : Env :=
  {| region_name := "us-east-1"; rds_mode := mode |}.

Definition db1 : DBInstance :=
  {| DBInstanceIdentifier := "db-1";
     DBInstanceArn := "arn:aws:rds:us-east-1:db:db-1";
     InstanceCreateTime := 100 |}.

Definition db2 : DBInstance :=
  {| DBInstanceIdentifier := "db-2";
     DBInstanceArn := "arn:aws:rds:us-east-1:db:db-2";
     InstanceCreateTime := 200 |}.

Definition db3 : DBInstance :=
  {| DBInstanceIdentifier := "db-3";
     DBInstanceArn := "arn:aws:rds:us-east-1:db:db-3";
     InstanceCreateTime := 300 |}.

Definition snap (ident : string) (time : Z) : DBSnapshot :=
  {| DBSnapshotIdentifier := ident;
     DBSnapshotArn := Catalog.snapshot_arn "us-east-1" ident;
     SnapshotCreateTime := time;
     Status := "available" |}.

Definition stored (ident : string) (time : Z) (kind : string) : Catalog.entry :=
  {| Catalog.snapshot := snap ident time;
     Catalog.source_instance := "db-1";
     Catalog.snapshot_type := kind;
     Catalog.restore_accounts := [] |}.

Definition catalog (c : Catalog.region) (size : nat) : Catalog.t :=
  {| Catalog.regions := {[ "us-east-1" := c ]};
     Catalog.page_size := size;
     Catalog.clock := 1000 |}.

Definition start (w : Catalog.t) : state Catalog.t := {| world := w; trace := [] |}.

(** The request of the spec's scenario. *)
Definition request_db1 : BackupResource :=
  {| name := Some "db-1-20240101"; entity_id := Some "db-1";
     backup_id := None; tags := ∅ |}.

(** One instance, no snapshot. *)
Definition only_db1 : Catalog.t :=
  catalog {| Catalog.instances := [db1]; Catalog.snapshots := [];
             Catalog.tag_store := ∅ |} 1.

(** [db-1] with a manual snapshot and three automated ones, two of them
    taken at the same time. *)
Definition automated_db1 : Catalog.t :=
  catalog {| Catalog.instances := [db1];
             Catalog.snapshots :=
               [stored "db-1-manual" 12 "manual"; stored "rds:db-1-a" 5 "automated";
                stored "rds:db-1-b" 9 "automated"; stored "rds:db-1-c" 9 "automated"];
             Catalog.tag_store := ∅ |} 100.

(** [db-1] with one backup taken by the adapter and an older one. *)
Definition backed_up_db1 : Catalog.t :=
  catalog {| Catalog.instances := [db1];
             Catalog.snapshots :=
               [stored "db-1-20231231" 8 "manual"; stored "db-1-20240101" 9 "manual"];
             Catalog.tag_store := ∅ |} 100.

(** The descriptor of the backup [db-1-20240101]. *)
Definition backup_db1 : BackupResource :=
  {| name := Some "db-1-20240101"; entity_id := Some "db-1";
     backup_id := Some "db-1-20240101"; tags := ∅ |}.

(** Five snapshots of [db-1]; the provider lists two to a page. *)
Definition five_snapshots : Catalog.t :=
  catalog {| Catalog.instances := [db1];
             Catalog.snapshots :=
               [stored "db-1-a" 1 "manual"; stored "db-1-b" 2 "manual";
                stored "db-1-c" 3 "manual"; stored "db-1-d" 4 "manual";
                stored "db-1-e" 5 "manual"];
             Catalog.tag_store := ∅ |} 2.

(** Three instances, two to a page.  [db-1] and [db-3] carry the marker tag
    [shelvery:run]; [db-2] carries tags whose keys only start with it or
    contain it. *)
Definition three_instances : Catalog.t :=
  catalog {| Catalog.instances := [db1; db2; db3];
             Catalog.snapshots := [];
             Catalog.tag_store :=
               {[ DBInstanceArn db1 := {[ "shelvery:run" := "true" ]};
                  DBInstanceArn db2 := {[ "shelvery:run-weekly" := "true";
                                          "x-shelvery:run" := "true";
                                          "shelvery" := "shelvery:run" ]};
                  DBInstanceArn db3 := {[ "owner" := "dba";
                                          "shelvery:run" := "false" ]} ]} |} 2.

(** The tags the adapter writes on the backup of [backup_db1]. *)
Definition provenance : gmap string string :=
  {[ "shelvery:tag_name" := "shelvery";
     "shelvery:backup-marker" := "true";
     "shelvery:name" := "db-1-20240101" ]}.

Definition tagged_backup_db1 : BackupResource :=
  {| name := Some "db-1-20240101"; entity_id := Some "db-1";
     backup_id := Some "db-1-20240101"; tags := provenance |}.

(** [backed_up_db1] where the snapshot [db-1-20240101] already carries a tag
    of its owner's. *)
Definition owner_tagged_db1 : Catalog.t :=
  catalog {| Catalog.instances := [db1];
             Catalog.snapshots :=
               [stored "db-1-20231231" 8 "manual"; stored "db-1-20240101" 9 "manual"];
             Catalog.tag_store :=
               {[ Catalog.snapshot_arn "us-east-1" "db-1-20240101" :=
                    {[ "owner" := "dba" ]} ]} |} 100.

(** Two snapshots on one page; only the second carries the marker tag of
    the prefix [shelvery]. *)
Definition marked_db1 : Catalog.t :=
  catalog {| Catalog.instances := [db1];
             Catalog.snapshots :=
               [stored "db-1-20231231" 8 "manual"; stored "db-1-20240101" 9 "manual"];
             Catalog.tag_store :=
               {[ Catalog.snapshot_arn "us-east-1" "db-1-20231231" :=
                    {[ "shelvery:backup-marker-old" := "true" ]};
                  Catalog.snapshot_arn "us-east-1" "db-1-20240101" := provenance ]} |}
          100.

Definition snapshot_tags (w : Catalog.t) (s : DBSnapshot) : list Tag :=
  match Catalog.list_tags_for_resource w "us-east-1" (DBSnapshotArn s) with
  | inr tag_list => tag_list
  | inl _ => []
  end.

(** The provider of the catalog, except that a describe call that finds
    nothing answers an empty page where the catalog answers an error. *)
Definition lenient : Provider Catalog.t :=
  {| api_describe_db_snapshots := λ w r a,
       match Catalog.describe_db_snapshots w r a with
       | inl _ => inr {| DBSnapshots := []; SnapshotsMarker := None |}
       | inr resp => inr resp
       end;
     api_describe_db_instances := Catalog.describe_db_instances;
     api_list_tags_for_resource := Catalog.list_tags_for_resource;
     api_create_db_snapshot := Catalog.create_db_snapshot;
     api_copy_db_snapshot := Catalog.copy_db_snapshot;
     api_delete_db_snapshot := Catalog.delete_db_snapshot;
     api_add_tags_to_resource := Catalog.add_tags_to_resource;
     api_modify_db_snapshot_attribute := Catalog.modify_db_snapshot_attribute |}.

Definition listed_tags (w : Catalog.t) (i : DBInstance) : list Tag :=
  match Catalog.list_tags_for_resource w "us-east-1" (DBInstanceArn i) with
  | inr tag_list => tag_list
  | inl _ => []
  end.

(** The provider of the catalog, except that the tags of the resource
    [arn] cannot be listed. *)
Definition denied (arn : string) : Provider Catalog.t :=
  {| api_describe_db_snapshots := Catalog.describe_db_snapshots;
     api_describe_db_instances := Catalog.describe_db_instances;
     api_list_tags_for_resource := λ w r resource,
       if bool_decide (resource = arn) then inl "AccessDenied"
       else Catalog.list_tags_for_resource w r resource;
     api_create_db_snapshot := Catalog.create_db_snapshot;
     api_copy_db_snapshot := Catalog.copy_db_snapshot;
     api_delete_db_snapshot := Catalog.delete_db_snapshot;
     api_add_tags_to_resource := Catalog.add_tags_to_resource;
     api_modify_db_snapshot_attribute := Catalog.modify_db_snapshot_attribute |}.

End Sample.

(** ** What a run does at the provider *)

(** The adapter's monad outside the section that declares it. *)
#[local] Existing Instances M_ret M_bind.

Definition is_read (c : call) : Prop := is_mutation (call_request c) = false.

(** [issues Q m env]: from any state, the calls [m] adds to the trace all
    satisfy [Q], and when none of them is a mutation the catalog is left as
    it was. *)
Definition issues {W A : Type} (Q : call → Prop) (m : M W A) (env : Env) : Prop :=
  ∀ st, ∃ calls,
    trace (snd (m env st)) = trace st ++ calls
    ∧ Forall Q calls
    ∧ (Forall is_read calls → world (snd (m env st)) = world st).

(** [Q] holds of every read call on the client [rds_client]. *)
Definition holds_of_reads (Q : call → Prop) (rds_client : string) : Prop :=
  ∀ r, is_mutation r = false → Q {| call_region := rds_client; call_request := r |}.

(** [m] only reads: it leaves the catalog as it was and every call it
    issues is a describe or list call, whatever the outcome. *)
Definition reads_only {W A : Type} (m : M W A) : Prop :=
  ∀ env st, ∃ calls,
    snd (m env st) = {| world := world st; trace := trace st ++ calls |}
    ∧ Forall is_read calls.

(** Every call [m] issues goes to one of the regions [regions env]. *)
Definition calls_in {W A : Type} (regions : Env → list string) (m : M W A) : Prop :=
  ∀ env st, ∃ calls,
    trace (snd (m env st)) = trace st ++ calls
    ∧ Forall (λ c, call_region c ∈ regions env) calls.


(** The markers of the requests a paging loop sends when each request
    carries the marker of the answer before it: at most [n] requests,
    starting with [marker], up to the first answer without a marker or the
    first error. *)
Fixpoint marker_chain {W : Type} (P : Provider W) (w : W) (rds_client : string)
    (marker : option string) (n : nat) : list (option string) :=
  match n with
  | O => []
  | S n' =>
      marker ::
      match api_describe_db_instances P w rds_client marker with
      | inl _ => []
      | inr resp =>
          match InstancesMarker resp with
          | None => []
          | Some m => marker_chain P w rds_client (Some m) n'
          end
      end
  end.

(** * Properties *)

(** Unfolds the provider calls and the plumbing of [M], so that a run of a
    method shows as a case analysis on the provider's answers. *)
Ltac unfold_calls :=
  unfold describe_db_snapshots, describe_db_instances, list_tags_for_resource,
    create_db_snapshot, copy_db_snapshot, delete_db_snapshot,
    add_tags_to_resource, modify_db_snapshot_attribute, read_call, write_call,
    boto3_client, session_region_name, get_rds_mode, index0, dict_get, raise,
    issued, mbind, M_bind, mret, M_ret;
  cbn.

(** ** The mode dispatch of [backup_resource] *)

Section Dispatch.

Context {W : Type} (P : Provider W).
Variables CREATE COPY : string.

Lemma backup_resource_create (b : BackupResource) (env : Env) (st : state W) :
  rds_mode env = CREATE →
  backup_resource P CREATE COPY b env st = backup_from_instance P b env st.
Proof.
  intros Hmode. unfold backup_resource. unfold_calls.
  rewrite bool_decide_eq_true_2; done.
Qed.

Lemma backup_resource_copy (b : BackupResource) (env : Env) (st : state W) :
  rds_mode env ≠ CREATE → rds_mode env = COPY →
  backup_resource P CREATE COPY b env st = backup_from_latest_automated P b env st.
Proof.
  intros Hne Hmode. unfold backup_resource. unfold_calls.
  rewrite bool_decide_eq_false_2 by done.
  rewrite bool_decide_eq_true_2; done.
Qed.

Lemma backup_resource_other (b : BackupResource) (env : Env) (st : state W) :
  rds_mode env ≠ CREATE → rds_mode env ≠ COPY →
  backup_resource P CREATE COPY b env st =
    (Raise (Exception (unsupported_mode_message CREATE COPY)), st).
Proof.
  intros Hne Hne'. unfold backup_resource. unfold_calls.
  rewrite !bool_decide_eq_false_2 by done. reflexivity.
Qed.

End Dispatch.

(** ** Creating a backup *)

(** C7.  In the mode [RDS_CREATE_SNAPSHOT], [backup_resource] issues one
    call, [create_db_snapshot] with [DBSnapshotIdentifier] the request's
    name and [DBInstanceIdentifier] its entity; when the provider accepts
    the call it returns the request with [backup_id] set to its name, and
    otherwise it passes the provider's error on.  So every descriptor it
    returns has [backup_id] equal to the request's name. *)
Theorem backup_resource_create_snapshot_backup_id
    {W : Type} (P : Provider W) (CREATE COPY : string)
    (b : BackupResource) (env : Env) (st : state W) :
  rds_mode env = CREATE →
  let a := {| CreateDBSnapshot.DBSnapshotIdentifier := name b;
              CreateDBSnapshot.DBInstanceIdentifier := entity_id b |} in
  let calls := trace st ++ [{| call_region := region_name env;
                               call_request := create_db_snapshot_call a |}] in
  backup_resource P CREATE COPY b env st =
    match api_create_db_snapshot P (world st) (region_name env) a with
    | inr w' => (Return (set_backup_id b (name b)), {| world := w'; trace := calls |})
    | inl code => (Raise (ClientError code), {| world := world st; trace := calls |})
    end
  ∧ ∀ r st', backup_resource P CREATE COPY b env st = (Return r, st') →
      backup_id r = name b ∧ name r = name b.
Proof.
  intros Hmode a calls.
  assert (backup_resource P CREATE COPY b env st =
    match api_create_db_snapshot P (world st) (region_name env) a with
    | inr w' => (Return (set_backup_id b (name b)), {| world := w'; trace := calls |})
    | inl code => (Raise (ClientError code), {| world := world st; trace := calls |})
    end) as Hrun.
  { rewrite backup_resource_create by done.
    unfold backup_from_instance. unfold_calls.
    fold a. destruct (api_create_db_snapshot P (world st) (region_name env) a); done. }
  split; [exact Hrun|].
  intros r st' Hret. rewrite Hrun in Hret.
  destruct (api_create_db_snapshot P (world st) (region_name env) a);
    inversion Hret; subst. done.
Qed.

Lemma backup_resource_create_snapshot_backup_id_witness :
  rds_mode (Sample.env Sample.CREATE) = Sample.CREATE
  ∧ fst (backup_resource Catalog.provider Sample.CREATE Sample.COPY
           Sample.request_db1 (Sample.env Sample.CREATE)
           (Sample.start Sample.only_db1))
    = Return {| name := Some "db-1-20240101"; entity_id := Some "db-1";
                backup_id := Some "db-1-20240101"; tags := ∅ |}.
Proof.
  split; [reflexivity|].
  destruct (backup_resource_create_snapshot_backup_id Catalog.provider
              Sample.CREATE Sample.COPY Sample.request_db1
              (Sample.env Sample.CREATE) (Sample.start Sample.only_db1) eq_refl)
    as [Hrun _].
  rewrite Hrun. vm_compute. reflexivity.
Defined.

(** *** [sorted(..., reverse=True)] *)

Section Sorted.

Context {A : Type} (key : A → Z).

Lemma insert_desc_perm (x : A) (l : list A) : insert_desc key x l ≡ₚ x :: l.
Proof.
  induction l as [|y l IH]; cbn; [done|].
  destruct (key y <=? key x)%Z; [done|].
  rewrite IH. apply Permutation_swap.
Qed.

Lemma sorted_reverse_perm (l : list A) : sorted_reverse key l ≡ₚ l.
Proof.
  induction l as [|x l IH]; cbn; [done|].
  by rewrite insert_desc_perm, IH.
Qed.

Lemma sorted_reverse_nil (l : list A) : sorted_reverse key l = [] → l = [].
Proof.
  intros Hnil. apply Permutation_nil_r. rewrite <- Hnil.
  symmetry. apply sorted_reverse_perm.
Qed.

Lemma insert_desc_descending (x : A) (l : list A) :
  descending key l → descending key (insert_desc key x l).
Proof.
  unfold descending. induction 1 as [|y l Hl IH Hy]; cbn.
  - repeat constructor.
  - destruct (Z.leb_spec (key y) (key x)) as [Hle|Hlt].
    + constructor; [by constructor|].
      constructor; [done|].
      eapply Forall_impl; [exact Hy|]. cbn. intros z Hz. lia.
    + constructor; [done|].
      rewrite insert_desc_perm. constructor; [lia|done].
Qed.

Lemma sorted_reverse_descending (l : list A) : descending key (sorted_reverse key l).
Proof.
  induction l as [|x l IH]; cbn; [constructor|].
  by apply insert_desc_descending.
Qed.

(** The head of the result is the first element of [l] that has the
    greatest key: every element before it has a smaller key, none after it
    has a greater one. *)
Lemma sorted_reverse_head (l : list A) (s : A) :
  head (sorted_reverse key l) = Some s →
  ∃ pre post, l = pre ++ s :: post
    ∧ Forall (λ y, (key y < key s)%Z) pre
    ∧ Forall (λ y, (key y ≤ key s)%Z) post.
Proof.
  revert s. induction l as [|x l IH]; intros s; cbn; [done|].
  destruct (sorted_reverse key l) as [|y t] eqn:Hsorted; cbn.
  - intros [= ->]. apply sorted_reverse_nil in Hsorted as ->.
    exists [], []. by repeat constructor.
  - destruct (IH y eq_refl) as (pre & post & -> & Hpre & Hpost).
    destruct (Z.leb_spec (key y) (key x)) as [Hle|Hlt]; cbn; intros [= <-].
    + exists [], (pre ++ y :: post). split; [done|]. split; [constructor|].
      apply Forall_app. split.
      * eapply Forall_impl; [exact Hpre|]. cbn. intros z Hz. lia.
      * constructor; [done|].
        eapply Forall_impl; [exact Hpost|]. cbn. intros z Hz. lia.
    + exists (x :: pre), post. split; [done|]. by repeat constructor.
Qed.

End Sorted.

(** C6.  In the mode [RDS_COPY_AUTOMATED_SNAPSHOT], when the provider
    answers a non-empty list of automated snapshots for the entity,
    [backup_resource] issues after the describe call one [copy_db_snapshot]
    call: its source is a snapshot [s] of that list with the greatest
    [SnapshotCreateTime]; among several with that time it is the one the
    provider listed first; its target is the request's name and [CopyTags]
    is off.  When the provider accepts the copy the request comes back with
    [backup_id] set to its name. *)
Theorem backup_resource_copies_latest_automated
    {W : Type} (P : Provider W) (CREATE COPY : string)
    (b : BackupResource) (env : Env) (st : state W) (resp : DBSnapshotMessage) :
  rds_mode env ≠ CREATE → rds_mode env = COPY →
  let asked :=
    {| DescribeDBSnapshots.DBInstanceIdentifier := entity_id b;
       DescribeDBSnapshots.DBSnapshotIdentifier := None;
       DescribeDBSnapshots.SnapshotType := Some "automated";
       DescribeDBSnapshots.MaxRecords := Some 20;
       DescribeDBSnapshots.Marker := None |} in
  api_describe_db_snapshots P (world st) (region_name env) asked = inr resp →
  DBSnapshots resp ≠ [] →
  ∃ pre s post,
    DBSnapshots resp = pre ++ s :: post
    ∧ Forall (λ y, (SnapshotCreateTime y < SnapshotCreateTime s)%Z) pre
    ∧ Forall (λ y, (SnapshotCreateTime y ≤ SnapshotCreateTime s)%Z) post
    ∧ let a :=
        {| CopyDBSnapshot.SourceDBSnapshotIdentifier := Some (DBSnapshotIdentifier s);
           CopyDBSnapshot.TargetDBSnapshotIdentifier := name b;
           CopyDBSnapshot.SourceRegion := None;
           CopyDBSnapshot.CopyTags := false |} in
      let calls :=
        trace st ++
        [{| call_region := region_name env;
            call_request := describe_db_snapshots_call asked |};
         {| call_region := region_name env;
            call_request := copy_db_snapshot_call a |}] in
      backup_resource P CREATE COPY b env st =
        match api_copy_db_snapshot P (world st) (region_name env) a with
        | inr w' =>
            (Return (set_backup_id b (name b)), {| world := w'; trace := calls |})
        | inl code => (Raise (ClientError code), {| world := world st; trace := calls |})
        end.
Proof.
  intros Hne Hmode asked Hasked Hsome.
  destruct (sorted_reverse SnapshotCreateTime (DBSnapshots resp)) as [|s t] eqn:Hsorted.
  { by apply sorted_reverse_nil in Hsorted. }
  destruct (sorted_reverse_head SnapshotCreateTime (DBSnapshots resp) s)
    as (pre & post & Hsplit & Hpre & Hpost); [by rewrite Hsorted|].
  exists pre, s, post. repeat (split; [done|]).
  intros a calls. rewrite backup_resource_copy by done.
  unfold backup_from_latest_automated. unfold_calls. fold asked. rewrite Hasked. cbn. rewrite Hsorted. cbn. fold a.
  subst calls. rewrite <- !app_assoc. cbn.
  destruct (api_copy_db_snapshot P (world st) (region_name env) a); done.
Qed.

Lemma backup_resource_copies_latest_automated_witness :
  ∃ pre s post,
    [Sample.snap "rds:db-1-a" 5; Sample.snap "rds:db-1-b" 9; Sample.snap "rds:db-1-c" 9]
      = pre ++ s :: post
    ∧ Forall (λ y, (SnapshotCreateTime y < SnapshotCreateTime s)%Z) pre
    ∧ Forall (λ y, (SnapshotCreateTime y ≤ SnapshotCreateTime s)%Z) post
    ∧ fst (backup_resource Catalog.provider Sample.CREATE Sample.COPY
             Sample.request_db1 (Sample.env Sample.COPY)
             (Sample.start Sample.automated_db1))
      = Return (set_backup_id Sample.request_db1 (Some "db-1-20240101")).
Proof.
  destruct (backup_resource_copies_latest_automated Catalog.provider
              Sample.CREATE Sample.COPY Sample.request_db1 (Sample.env Sample.COPY)
              (Sample.start Sample.automated_db1)
              {| DBSnapshots :=
                   [Sample.snap "rds:db-1-a" 5; Sample.snap "rds:db-1-b" 9;
                    Sample.snap "rds:db-1-c" 9];
                 SnapshotsMarker := None |})
    as (pre & s & post & Hsplit & Hpre & Hpost & Hrun).
  - vm_compute. congruence.
  - reflexivity.
  - vm_compute. reflexivity.
  - discriminate.
  - exists pre, s, post. repeat (split; [assumption|]).
    vm_compute. reflexivity.
Defined.

(** The copy of the sample catalog is taken from [rds:db-1-b]: the newer
    [rds:db-1-c] has the same time and was listed later. *)
Example backup_resource_copy_source_sample :
  last (trace (snd (backup_resource Catalog.provider Sample.CREATE Sample.COPY
                      Sample.request_db1 (Sample.env Sample.COPY)
                      (Sample.start Sample.automated_db1))))
  = Some {| call_region := "us-east-1";
            call_request := copy_db_snapshot_call
              {| CopyDBSnapshot.SourceDBSnapshotIdentifier := Some "rds:db-1-b";
                 CopyDBSnapshot.TargetDBSnapshotIdentifier := Some "db-1-20240101";
                 CopyDBSnapshot.SourceRegion := None;
                 CopyDBSnapshot.CopyTags := false |} |}.
Proof. vm_compute. reflexivity. Qed.

(** C4.  With a mode that is neither constant, [backup_resource] raises a
    plain [Exception] whose message names the two supported modes.  It does
    so before any provider call: the catalog and the trace are those it
    started with. *)
Theorem backup_resource_unknown_mode_raises_exception
    {W : Type} (P : Provider W) (CREATE COPY : string)
    (b : BackupResource) (env : Env) (st : state W) :
  rds_mode env ≠ CREATE → rds_mode env ≠ COPY →
  ∃ e, backup_resource P CREATE COPY b env st = (Raise e, st)
       ∧ e = Exception (unsupported_mode_message CREATE COPY)
       ∧ exn_class e = "Exception".
Proof.
  intros Hne Hne'. eexists. split; [by apply backup_resource_other|]. done.
Qed.

Lemma backup_resource_unknown_mode_raises_exception_witness :
  backup_resource Catalog.provider Sample.CREATE Sample.COPY
    Sample.request_db1 (Sample.env "SNAPSHOT") (Sample.start Sample.only_db1)
  = (Raise (Exception
       ("Only COPY_AUTOMATED_SNAPSHOT and CREATE_SNAPSHOT rds backup modes " +:+
        "supported - set rds backup mode using rds_backup_mode configuration option ")),
     Sample.start Sample.only_db1).
Proof.
  destruct (backup_resource_unknown_mode_raises_exception Catalog.provider
              Sample.CREATE Sample.COPY Sample.request_db1 (Sample.env "SNAPSHOT")
              (Sample.start Sample.only_db1)) as (e & Hrun & -> & _).
  - vm_compute. congruence.
  - vm_compute. congruence.
  - rewrite Hrun. vm_compute. reflexivity.
Defined.

(** C4, as the spec states it, fails: with the mode [SNAPSHOT] the exception
    raised is not of a class [ConfigurationError]. *)
Lemma backup_resource_unknown_mode_not_configuration_error :
  ¬ ∃ e st', backup_resource Catalog.provider Sample.CREATE Sample.COPY
               Sample.request_db1 (Sample.env "SNAPSHOT")
               (Sample.start Sample.only_db1) = (Raise e, st')
             ∧ exn_class e = "ConfigurationError".
Proof.
  intros (e & st' & Hrun & Hclass). vm_compute in Hrun.
  inversion Hrun; subst. vm_compute in Hclass. discriminate.
Qed.

(** C2.  In the mode [RDS_COPY_AUTOMATED_SNAPSHOT], when the provider
    answers an empty list of automated snapshots, [backup_resource] ends in
    the [IndexError] of [auto_snapshots[0]].  The describe call is the only
    call issued, so nothing is changed at the provider; the error is not of
    a class of its own. *)
Theorem backup_resource_no_automated_snapshot_index_error
    {W : Type} (P : Provider W) (CREATE COPY : string)
    (b : BackupResource) (env : Env) (st : state W) (resp : DBSnapshotMessage) :
  rds_mode env ≠ CREATE → rds_mode env = COPY →
  let asked :=
    {| DescribeDBSnapshots.DBInstanceIdentifier := entity_id b;
       DescribeDBSnapshots.DBSnapshotIdentifier := None;
       DescribeDBSnapshots.SnapshotType := Some "automated";
       DescribeDBSnapshots.MaxRecords := Some 20;
       DescribeDBSnapshots.Marker := None |} in
  api_describe_db_snapshots P (world st) (region_name env) asked = inr resp →
  DBSnapshots resp = [] →
  backup_resource P CREATE COPY b env st =
    (Raise IndexError,
     {| world := world st;
        trace := trace st ++ [{| call_region := region_name env;
                                 call_request := describe_db_snapshots_call asked |}] |}).
Proof.
  intros Hne Hmode asked Hasked Hnone.
  rewrite backup_resource_copy by done.
  unfold backup_from_latest_automated. unfold_calls. fold asked. rewrite Hasked. cbn. rewrite Hnone. reflexivity.
Qed.

Lemma backup_resource_no_automated_snapshot_index_error_witness :
  fst (backup_resource Catalog.provider Sample.CREATE Sample.COPY
         Sample.request_db1 (Sample.env Sample.COPY) (Sample.start Sample.only_db1))
  = Raise IndexError
  ∧ exn_class IndexError ≠ "NoAutomatedSnapshotError".
Proof.
  split; [|vm_compute; congruence].
  rewrite (backup_resource_no_automated_snapshot_index_error Catalog.provider
             Sample.CREATE Sample.COPY Sample.request_db1 (Sample.env Sample.COPY)
             (Sample.start Sample.only_db1)
             {| DBSnapshots := []; SnapshotsMarker := None |}).
  - reflexivity.
  - vm_compute. congruence.
  - reflexivity.
  - vm_compute. reflexivity.
  - reflexivity.
Defined.

(** ** Deleting a backup *)

(** C3.  [delete_backup] issues one call, [delete_db_snapshot], whose only
    argument is [DBInstanceIdentifier], set to the entity of the backup.
    The backup's own identifier is not passed. *)
Theorem delete_backup_passes_entity_id
    {W : Type} (P : Provider W) (b : BackupResource) (env : Env) (st : state W) :
  let a := {| DeleteDBSnapshot.DBSnapshotIdentifier := None;
              DeleteDBSnapshot.DBInstanceIdentifier := entity_id b |} in
  trace (snd (delete_backup P b env st)) =
    trace st ++ [{| call_region := region_name env;
                    call_request := delete_db_snapshot_call a |}].
Proof.
  intros a. unfold delete_backup. unfold_calls. fold a. destruct (api_delete_db_snapshot P (world st) (region_name env) a); done.
Qed.

(** On the sample catalog the provider refuses the call, and the backup
    [db-1-20240101] is still there. *)
Example delete_backup_sample :
  let run := delete_backup Catalog.provider Sample.backup_db1
               (Sample.env Sample.CREATE) (Sample.start Sample.backed_up_db1) in
  fst run = Raise (ClientError "ParamValidationError")
  ∧ world (snd run) = Sample.backed_up_db1.
Proof. vm_compute. split; reflexivity. Qed.

(** ** Listing snapshots *)

Section Snapshots.

Context {W : Type} (P : Provider W).

Lemma collect_all_snapshots_loop_marker (rds_client : string)
    (page : DBSnapshotMessage) (m : string) (env : Env) (fuel : nat) :
  SnapshotsMarker page = Some m →
  ∀ (all_snapshots : list DBSnapshot) (st : state W),
    api_describe_db_snapshots P (world st) rds_client DescribeDBSnapshots.none
      = inr page →
    collect_all_snapshots_loop P fuel rds_client all_snapshots page env st =
      (OutOfFuel,
       {| world := world st;
          trace := trace st ++
            replicate fuel
              {| call_region := rds_client;
                 call_request := describe_db_snapshots_call DescribeDBSnapshots.none |} |}).
Proof.
  intros Hmarker. induction fuel as [|fuel IH]; intros all_snapshots st Hpage; cbn.
  - rewrite Hmarker. destruct st. cbn. by rewrite app_nil_r.
  - rewrite Hmarker.
    unfold mbind, M_bind, describe_db_snapshots, read_call, issued.
    rewrite Hpage. rewrite IH by done. cbn. by rewrite <- app_assoc.
Qed.

End Snapshots.

(** C1.  When the first answer of [describe_db_snapshots] holds a marker,
    [get_existing_backups] does not return: its loop issues the first call
    again, without the marker, gets the first page again, and goes on.
    Whatever the fuel, the run is cut off, and every call it issued is the
    call without arguments. *)
Theorem get_existing_backups_repeats_first_page
    {W : Type} (P : Provider W) (MARKER_TAG : string) (fuel : nat)
    (backup_tag_prefix : string) (env : Env) (st : state W)
    (page : DBSnapshotMessage) (m : string) :
  api_describe_db_snapshots P (world st) (region_name env) DescribeDBSnapshots.none
    = inr page →
  SnapshotsMarker page = Some m →
  get_existing_backups P MARKER_TAG fuel backup_tag_prefix env st =
    (OutOfFuel,
     {| world := world st;
        trace := trace st ++
          replicate (S fuel)
            {| call_region := region_name env;
               call_request := describe_db_snapshots_call DescribeDBSnapshots.none |} |}).
Proof.
  intros Hpage Hmarker.
  unfold get_existing_backups, collect_all_snapshots, boto3_client.
  unfold mbind, M_bind. cbn.
  unfold describe_db_snapshots at 1. unfold read_call, issued. rewrite Hpage.
  erewrite collect_all_snapshots_loop_marker by eauto.
  cbn. by rewrite <- app_assoc.
Qed.

Lemma get_existing_backups_repeats_first_page_witness :
  Catalog.describe_db_snapshots Sample.five_snapshots "us-east-1"
    DescribeDBSnapshots.none
  = inr {| DBSnapshots := [Sample.snap "db-1-a" 1; Sample.snap "db-1-b" 2];
           SnapshotsMarker := Some "db-1-c" |}
  ∧ fst (get_existing_backups Catalog.provider "backup" 1000 "shelvery"
           (Sample.env Sample.CREATE) (Sample.start Sample.five_snapshots))
    = OutOfFuel.
Proof.
  split; [vm_compute; reflexivity|].
  rewrite (get_existing_backups_repeats_first_page Catalog.provider "backup" 1000
             "shelvery" (Sample.env Sample.CREATE) (Sample.start Sample.five_snapshots)
             {| DBSnapshots := [Sample.snap "db-1-a" 1; Sample.snap "db-1-b" 2];
                SnapshotsMarker := Some "db-1-c" |} "db-1-c").
  - reflexivity.
  - vm_compute. reflexivity.
  - reflexivity.
Defined.

(** ** Tag mappings *)

Lemma dict_of_tags_snoc (tag_list : list Tag) (t : Tag) :
  dict_of_tags (tag_list ++ [t]) = <[Key t := Value t]> (dict_of_tags tag_list).
Proof. unfold dict_of_tags. by rewrite foldl_app. Qed.

(** [k in dict(...)] holds exactly when some tag of the list has the key
    [k]: the test compares whole keys. *)
Lemma dict_mem_has_key (k : string) (tag_list : list Tag) :
  dict_mem k (dict_of_tags tag_list) = true ↔ has_key k tag_list.
Proof.
  unfold dict_mem, has_key. rewrite bool_decide_eq_true.
  induction tag_list as [|t tag_list IH] using rev_ind.
  - cbn. rewrite lookup_empty, Exists_nil. split; [by intros [? ?]|done].
  - rewrite dict_of_tags_snoc, Exists_app, Exists_cons, Exists_nil.
    destruct (decide (Key t = k)) as [->|Hne].
    + rewrite lookup_insert_eq. split; [by auto|by eauto].
    + rewrite lookup_insert_ne by done. rewrite IH. tauto.
Qed.

(** ** Listing instances *)

Lemma filter_all {A : Type} (Q : A → Prop) `{!∀ x, Decision (Q x)} (l : list A) :
  Forall Q l → filter Q l = l.
Proof.
  induction 1 as [|x l Hx Hl IH]; [done|].
  rewrite filter_cons_True by done. by rewrite IH.
Qed.

Section Instances.

Context {W : Type} (P : Provider W).

Lemma get_all_instances_loop_pages (rds_client : string) (env : Env)
    (rest : list (list DBInstance)) :
  ∀ (fuel : nat) (db_instances : list DBInstance) (temp : DBInstanceMessage)
    (st : state W),
    length rest ≤ fuel →
    match InstancesMarker temp with
    | None => rest = []
    | Some m => instance_pages P (world st) rds_client (Some m) rest
    end →
    ∃ calls,
      get_all_instances_loop P fuel rds_client db_instances temp env st =
        (Return (db_instances ++ concat rest), {| world := world st; trace := calls |}).
Proof.
  induction rest as [|p rest IH]; intros fuel db_instances temp st Hfuel Hpages.
  - destruct (InstancesMarker temp) eqn:Hmarker; [done|].
    exists (trace st). destruct fuel, st; cbn; rewrite Hmarker, app_nil_r; done.
  - destruct (InstancesMarker temp) as [m|] eqn:Hmarker; [|done].
    destruct fuel as [|fuel]; [cbn in Hfuel; lia|].
    cbn in Hpages.
    destruct (api_describe_db_instances P (world st) rds_client (Some m))
      as [|resp] eqn:Hresp; [done|].
    destruct Hpages as [<- Hrest].
    edestruct (IH fuel (db_instances ++ DBInstances resp) resp
      {| world := world st;
         trace := issued st rds_client (describe_db_instances_call (Some m)) |})
      as [calls Hloop]; [cbn in *; lia|exact Hrest|].
    exists calls. cbn. rewrite Hmarker.
    unfold mbind, M_bind, describe_db_instances, read_call. rewrite Hresp.
    rewrite Hloop. cbn. by rewrite <- app_assoc.
Qed.

Lemma get_all_instances_pages (rds_client : string) (env : Env) (fuel : nat)
    (pages : list (list DBInstance)) (st : state W) :
  length pages ≤ S fuel →
  instance_pages P (world st) rds_client None pages →
  ∃ calls,
    get_all_instances P fuel rds_client env st =
      (Return (concat pages), {| world := world st; trace := calls |}).
Proof.
  intros Hfuel Hpages. destruct pages as [|p rest]; [done|]. cbn in Hpages.
  destruct (api_describe_db_instances P (world st) rds_client None)
    as [|resp] eqn:Hresp; [done|].
  destruct Hpages as [<- Hrest].
  edestruct (get_all_instances_loop_pages rds_client env rest fuel
    ([] ++ DBInstances resp) resp
    {| world := world st;
       trace := issued st rds_client (describe_db_instances_call None) |})
    as [calls Hloop]; [cbn in *; lia|exact Hrest|].
  exists calls. unfold get_all_instances, mbind, M_bind, describe_db_instances, read_call.
  rewrite Hresp. exact Hloop.
Qed.

Lemma tagged_entities_filter (tag_name local_region rds_client : string)
    (env : Env) (tag_list : DBInstance → list Tag) (db_instances : list DBInstance) :
  ∀ (db_entities : list EntityResource.t) (st : state W),
    Forall (λ i, api_list_tags_for_resource P (world st) rds_client (DBInstanceArn i)
                 = inr (tag_list i)) db_instances →
    ∃ calls,
      tagged_entities P tag_name local_region rds_client db_instances db_entities env st =
        (Return (db_entities ++
                 (entity_of local_region tag_list
                    <$> filter (λ i, has_key tag_name (tag_list i)) db_instances)),
         {| world := world st; trace := calls |}).
Proof.
  induction db_instances as [|i rest IH]; intros db_entities st Htags.
  - exists (trace st). destruct st. cbn. by rewrite app_nil_r.
  - apply Forall_cons in Htags as [Hi Hrest]. cbn.
    unfold mbind, M_bind, list_tags_for_resource, read_call. rewrite Hi.
    destruct (decide (has_key tag_name (tag_list i))) as [Hkey|Hkey].
    + rewrite (proj2 (dict_mem_has_key _ _) Hkey).
      edestruct (IH (db_entities ++ [entity_of local_region tag_list i])
        {| world := world st;
           trace := issued st rds_client
                      (list_tags_for_resource_call (DBInstanceArn i)) |})
        as [calls Hloop]; [exact Hrest|].
      exists calls. unfold entity_of in Hloop at 1. rewrite Hloop.
      cbn. by rewrite <- app_assoc.
    + destruct (dict_mem tag_name (dict_of_tags (tag_list i))) eqn:Hmem;
        [by apply dict_mem_has_key in Hmem|].
      edestruct (IH db_entities
        {| world := world st;
           trace := issued st rds_client
                      (list_tags_for_resource_call (DBInstanceArn i)) |})
        as [calls Hloop]; [exact Hrest|].
      exists calls. by rewrite Hloop.
Qed.

End Instances.

(** C5.  When the provider serves the instances in the pages [pages] and
    answers the tag list [tag_list i] for each instance [i] of them,
    [get_entities_to_backup] (with fuel for every page) returns, in the
    provider's order, one descriptor for each listed instance whose tag
    list holds the key [tag_name] itself, and none for the others.  If all
    instances hold the key there are as many descriptors as instances,
    however the provider cut the pages. *)
Theorem get_entities_to_backup_tagged_instances
    {W : Type} (P : Provider W) (fuel : nat) (tag_name : string)
    (env : Env) (st : state W)
    (pages : list (list DBInstance)) (tag_list : DBInstance → list Tag) :
  instance_pages P (world st) (region_name env) None pages →
  Forall (λ i, api_list_tags_for_resource P (world st) (region_name env)
                 (DBInstanceArn i) = inr (tag_list i)) (concat pages) →
  length pages ≤ S fuel →
  ∃ entities,
    fst (get_entities_to_backup P fuel tag_name env st) = Return entities
    ∧ entities = entity_of (region_name env) tag_list
                   <$> filter (λ i, has_key tag_name (tag_list i)) (concat pages)
    ∧ (Forall (λ i, has_key tag_name (tag_list i)) (concat pages) →
       length entities = length (concat pages)).
Proof.
  intros Hpages Htags Hfuel.
  destruct (get_all_instances_pages P (region_name env) env fuel pages st Hfuel Hpages)
    as [calls Hall].
  destruct (tagged_entities_filter P tag_name (region_name env) (region_name env) env
              tag_list (concat pages) [] {| world := world st; trace := calls |} Htags)
    as [calls' Hloop].
  eexists. split; [|split; [reflexivity|]].
  - unfold get_entities_to_backup, session_region_name, boto3_client, mbind, M_bind.
    cbn. rewrite Hall. rewrite Hloop. reflexivity.
  - intros Hall_tagged. rewrite length_fmap.
    f_equal. apply filter_all. exact Hall_tagged.
Qed.

Lemma get_entities_to_backup_tagged_instances_witness :
  fst (get_entities_to_backup Catalog.provider 1 "shelvery:run"
         (Sample.env Sample.CREATE) (Sample.start Sample.three_instances))
  = Return
      [ {| EntityResource.entity_id := "db-1";
           EntityResource.region := "us-east-1";
           EntityResource.date_created := 100;
           EntityResource.tags := {[ "shelvery:run" := "true" ]} |};
        {| EntityResource.entity_id := "db-3";
           EntityResource.region := "us-east-1";
           EntityResource.date_created := 300;
           EntityResource.tags := {[ "owner" := "dba"; "shelvery:run" := "false" ]} |} ].
Proof.
  destruct (get_entities_to_backup_tagged_instances Catalog.provider 1 "shelvery:run"
              (Sample.env Sample.CREATE) (Sample.start Sample.three_instances)
              [[Sample.db1; Sample.db2]; [Sample.db3]]
              (Sample.listed_tags Sample.three_instances))
    as (entities & Hrun & -> & _).
  - vm_compute. repeat split.
  - repeat constructor.
  - cbn. lia.
  - rewrite Hrun. vm_compute. reflexivity.
Defined.

(** ** Looking a snapshot up by its identifier *)

(** C10.  [is_backup_available], [tag_backup_resource],
    [copy_backup_to_region] and [get_backup_resource] each take element 0 of
    the list the describe call answers, without a test.  Whenever the
    provider answers the call, each of them ends in [IndexError] exactly
    when the list is empty: that the identifier resolves to a snapshot is
    the condition under which the error cannot occur. *)
Theorem first_snapshot_index_error
    {W : Type} (P : Provider W) (env : Env) (st : state W) :
  (∀ backup_region backup_id resp,
     api_describe_db_snapshots P (world st) backup_region
       (DescribeDBSnapshots.by_id (Some backup_id)) = inr resp →
     fst (is_backup_available P backup_region backup_id env st) = Raise IndexError
     ↔ DBSnapshots resp = [])
  ∧ (∀ b resp,
       api_describe_db_snapshots P (world st) (region_name env)
         (DescribeDBSnapshots.by_id (backup_id b)) = inr resp →
       fst (tag_backup_resource P b env st) = Raise IndexError
       ↔ DBSnapshots resp = [])
  ∧ (∀ backup_id region resp,
       api_describe_db_snapshots P (world st) (region_name env)
         (DescribeDBSnapshots.by_id (Some backup_id)) = inr resp →
       fst (copy_backup_to_region P backup_id region env st) = Raise IndexError
       ↔ DBSnapshots resp = [])
  ∧ (∀ backup_region backup_id resp,
       api_describe_db_snapshots P (world st) backup_region
         (DescribeDBSnapshots.by_id (Some backup_id)) = inr resp →
       fst (get_backup_resource P backup_region backup_id env st) = Raise IndexError
       ↔ DBSnapshots resp = []).
Proof.
  repeat apply conj; intros until resp; intros Hresp;
    unfold is_backup_available, tag_backup_resource, copy_backup_to_region,
      get_backup_resource;
    unfold_calls; rewrite Hresp; cbn;
    (destruct (DBSnapshots resp) as [|s rest]; cbn; [done|]);
    (split; [intros Hrun; exfalso; revert Hrun|done]).
  - done.
  - by destruct (api_add_tags_to_resource _ _ _ _).
  - by destruct (api_copy_db_snapshot _ _ _ _).
  - destruct (api_list_tags_for_resource _ _ _ _); cbn; [done|].
    by destruct (_ !! _).
Qed.

Lemma first_snapshot_index_error_witness :
  fst (is_backup_available Sample.lenient "us-east-1" "db-1-20240101"
         (Sample.env Sample.CREATE) (Sample.start Sample.only_db1))
  = Raise IndexError
  ∧ fst (is_backup_available Sample.lenient "us-east-1" "db-1-20240101"
           (Sample.env Sample.CREATE) (Sample.start Sample.backed_up_db1))
    = Return true.
Proof.
  destruct (first_snapshot_index_error Sample.lenient (Sample.env Sample.CREATE)
              (Sample.start Sample.only_db1)) as (Havailable & _).
  split.
  - apply (Havailable "us-east-1" "db-1-20240101"
             {| DBSnapshots := []; SnapshotsMarker := None |}).
    + vm_compute. reflexivity.
    + reflexivity.
  - vm_compute. reflexivity.
Defined.

(** C9.  [get_backup_resource] has no error classes of its own.  An error
    the provider answers to the describe call is passed on; an empty answer
    ends in the [IndexError] of [snapshots['DBSnapshots'][0]]; a snapshot
    whose tag list has no key [shelvery:tag_name] ends in the [KeyError] of
    the dict lookup.  The last two are different classes. *)
Theorem get_backup_resource_lookup_errors
    {W : Type} (P : Provider W) (backup_region backup_id : string)
    (env : Env) (st : state W) :
  let asked := DescribeDBSnapshots.by_id (Some backup_id) in
  let run := get_backup_resource P backup_region backup_id env st in
  (∀ code, api_describe_db_snapshots P (world st) backup_region asked = inl code →
           fst run = Raise (ClientError code))
  ∧ (∀ resp, api_describe_db_snapshots P (world st) backup_region asked = inr resp →
             DBSnapshots resp = [] → fst run = Raise IndexError)
  ∧ (∀ resp s rest tag_list,
       api_describe_db_snapshots P (world st) backup_region asked = inr resp →
       DBSnapshots resp = s :: rest →
       api_list_tags_for_resource P (world st) backup_region (DBSnapshotArn s)
         = inr tag_list →
       ¬ has_key "shelvery:tag_name" tag_list →
       fst run = Raise (KeyError "shelvery:tag_name"))
  ∧ (∀ k, exn_class IndexError ≠ exn_class (KeyError k)).
Proof.
  intros asked run. subst run.
  unfold get_backup_resource. unfold_calls. fold asked. repeat split.
  - intros code ->. reflexivity.
  - intros resp -> ->. reflexivity.
  - intros resp s rest tag_list -> -> Htags Hkey. cbn. rewrite Htags. cbn.
    destruct (dict_of_tags tag_list !! "shelvery:tag_name") as [v|] eqn:Hlookup;
      [|reflexivity].
    exfalso. apply Hkey, dict_mem_has_key. unfold dict_mem.
    apply bool_decide_eq_true. by rewrite Hlookup.
  - intros k. cbn. discriminate.
Qed.

Lemma get_backup_resource_lookup_errors_witness :
  fst (get_backup_resource Catalog.provider "us-east-1" "db-1-20250101"
         (Sample.env Sample.CREATE) (Sample.start Sample.backed_up_db1))
  = Raise (ClientError "DBSnapshotNotFound")
  ∧ fst (get_backup_resource Catalog.provider "us-east-1" "db-1-20240101"
           (Sample.env Sample.CREATE) (Sample.start Sample.owner_tagged_db1))
    = Raise (KeyError "shelvery:tag_name").
Proof.
  split.
  - apply (get_backup_resource_lookup_errors Catalog.provider "us-east-1"
             "db-1-20250101" (Sample.env Sample.CREATE)
             (Sample.start Sample.backed_up_db1)).
    vm_compute. reflexivity.
  - eapply (get_backup_resource_lookup_errors Catalog.provider "us-east-1"
              "db-1-20240101" (Sample.env Sample.CREATE)
              (Sample.start Sample.owner_tagged_db1)).
    + vm_compute. reflexivity.
    + reflexivity.
    + vm_compute. reflexivity.
    + intros Hkey. apply dict_mem_has_key in Hkey. vm_compute in Hkey. discriminate.
Defined.

(** C9, as the spec states it, fails: looking up an identifier the region
    does not hold does not end in an error of a class [NotFoundError], and
    looking up a snapshot without the tag [shelvery:tag_name] does not end in
    one of a class [MissingProvenanceError]. *)
Lemma get_backup_resource_no_error_classes_of_its_own :
  (¬ ∃ e st', get_backup_resource Catalog.provider "us-east-1" "db-1-20250101"
                (Sample.env Sample.CREATE) (Sample.start Sample.backed_up_db1)
              = (Raise e, st')
              ∧ exn_class e = "NotFoundError")
  ∧ (¬ ∃ e st', get_backup_resource Sample.lenient "us-east-1" "db-1-20250101"
                  (Sample.env Sample.CREATE) (Sample.start Sample.backed_up_db1)
                = (Raise e, st')
                ∧ exn_class e = "NotFoundError")
  ∧ (¬ ∃ e st', get_backup_resource Catalog.provider "us-east-1" "db-1-20240101"
                  (Sample.env Sample.CREATE) (Sample.start Sample.owner_tagged_db1)
                = (Raise e, st')
                ∧ exn_class e = "MissingProvenanceError").
Proof.
  repeat split; intros (e & st' & Hrun & Hclass); vm_compute in Hrun;
    inversion Hrun; subst; vm_compute in Hclass; discriminate.
Qed.

(** ** Writing tags and reading them back *)

Lemma add_tags_union (before written : gmap string string) :
  foldl (λ d t, <[Key t := Value t]> d) before (tags_of_dict written)
  = written ∪ before.
Proof.
  unfold tags_of_dict. rewrite foldl_fmap. cbn.
  rewrite <- (list_to_map_to_list written) at 2.
  pose proof (NoDup_fst_map_to_list written) as Hkeys.
  revert before Hkeys.
  induction (map_to_list written) as [|[k v] l IH]; intros before Hkeys; cbn.
  - by rewrite (left_id_L ∅ (∪)).
  - cbn in Hkeys. apply NoDup_cons in Hkeys as [Hk Hkeys].
    rewrite IH by done.
    rewrite <- insert_union_l.
    by rewrite insert_union_r by (by apply not_elem_of_list_to_map_1).
Qed.

(** A dict written as a tag list and read back is the same dict. *)
Lemma dict_of_tags_of_dict (d : gmap string string) :
  dict_of_tags (tags_of_dict d) = d.
Proof.
  unfold dict_of_tags. rewrite add_tags_union. by rewrite (right_id_L ∅ (∪)).
Qed.

Section CatalogFacts.

Import Catalog.

Lemma region_of_with_region (w : Catalog.t) (r : string) (c : Catalog.region) :
  region_of (with_region w r c) r = c.
Proof. unfold region_of, with_region. cbn. by rewrite lookup_insert_eq. Qed.

(** Adding tags changes no answer of the describe call. *)
Lemma describe_after_add_tags (w w' : Catalog.t) (r : string)
    (a : AddTagsToResource.args) (asked : DescribeDBSnapshots.args) :
  Catalog.add_tags_to_resource w r a = inr w' →
  Catalog.describe_db_snapshots w' r asked = Catalog.describe_db_snapshots w r asked.
Proof.
  unfold Catalog.add_tags_to_resource. intros [= <-].
  unfold Catalog.describe_db_snapshots. by rewrite region_of_with_region.
Qed.

Lemma tags_after_add_tags (w w' : Catalog.t) (r : string)
    (a : AddTagsToResource.args) :
  Catalog.add_tags_to_resource w r a = inr w' →
  tags_at (region_of w' r) (AddTagsToResource.ResourceName a)
  = foldl (λ d t, <[Key t := Value t]> d)
      (tags_at (region_of w r) (AddTagsToResource.ResourceName a))
      (AddTagsToResource.Tags a).
Proof.
  unfold Catalog.add_tags_to_resource. intros [= <-].
  rewrite region_of_with_region. unfold tags_at at 1. cbn.
  by rewrite lookup_insert_eq.
Qed.

End CatalogFacts.

#[local] Arguments Catalog.describe_db_snapshots : simpl never.
#[local] Arguments Catalog.add_tags_to_resource : simpl never.
#[local] Arguments Catalog.list_tags_for_resource : simpl never.

(** C8.  On a catalog where [backup_id] resolves in the session's region and
    the tags written hold the key [shelvery:tag_name],
    [tag_backup_resource] followed by [get_backup_resource] on the same
    identifier and region returns a descriptor whose tags are the tags
    written laid over the tags the snapshot had before: every entry written
    is read back, and the mapping read back is the one written when the
    snapshot carried no other key before. *)
Theorem tag_then_get_backup_resource_tags
    (w : Catalog.t) (env : Env) (calls : list call) (b : BackupResource)
    (ident v : string) (resp : DBSnapshotMessage) (s : DBSnapshot)
    (rest : list DBSnapshot) :
  backup_id b = Some ident →
  Catalog.describe_db_snapshots w (region_name env)
    (DescribeDBSnapshots.by_id (Some ident)) = inr resp →
  DBSnapshots resp = s :: rest →
  tags b !! "shelvery:tag_name" = Some v →
  let before :=
    Catalog.tags_at (Catalog.region_of w (region_name env)) (DBSnapshotArn s) in
  ∃ st1 r st2,
    tag_backup_resource Catalog.provider b env {| world := w; trace := calls |}
      = (Return (), st1)
    ∧ get_backup_resource Catalog.provider (region_name env) ident env st1
      = (Return r, st2)
    ∧ backup_id r = Some ident
    ∧ tags r = tags b ∪ before
    ∧ tags b ⊆ tags r
    ∧ (dom before ⊆ dom (tags b) → tags r = tags b).
Proof.
  intros Hid Hresp Hlist Htag before.
  set (a := {| AddTagsToResource.ResourceName := DBSnapshotArn s;
               AddTagsToResource.Tags := tags_of_dict (tags b) |}).
  destruct (Catalog.add_tags_to_resource w (region_name env) a) as [|w'] eqn:Hadd;
    [done|].
  pose proof (describe_after_add_tags _ _ _ _
                (DescribeDBSnapshots.by_id (Some ident)) Hadd) as Hresp'.
  pose proof (tags_after_add_tags _ _ _ _ Hadd) as Htags'.
  cbn [AddTagsToResource.ResourceName AddTagsToResource.Tags a] in Htags'.
  rewrite add_tags_union in Htags'. fold before in Htags'.
  assert ((tags b ∪ before) !! "shelvery:tag_name" = Some v) as Hread
    by (by apply lookup_union_Some_l).
  eexists _, (construct v ident (tags b ∪ before)), _. split; [|split].
  - unfold tag_backup_resource. unfold_calls. rewrite Hid, Hresp. cbn. rewrite Hlist. cbn. fold a. rewrite Hadd.
    reflexivity.
  - unfold get_backup_resource. unfold_calls. rewrite Hresp', Hresp. cbn. rewrite Hlist. cbn.
    unfold Catalog.list_tags_for_resource. rewrite Htags'.
    rewrite dict_of_tags_of_dict, Hread. reflexivity.
  - cbn. repeat split.
    + apply map_union_subseteq_l.
    + intros Hdom. apply map_eq. intros k.
      destruct (tags b !! k) as [x|] eqn:Hk.
      * by apply lookup_union_Some_l.
      * rewrite lookup_union_r by done.
        apply not_elem_of_dom. intros Hin. apply Hdom in Hin.
        by apply not_elem_of_dom in Hk.
Qed.

Lemma tag_then_get_backup_resource_tags_witness :
  ∃ st1 r st2,
    tag_backup_resource Catalog.provider Sample.tagged_backup_db1
      (Sample.env Sample.CREATE) (Sample.start Sample.backed_up_db1)
      = (Return (), st1)
    ∧ get_backup_resource Catalog.provider "us-east-1" "db-1-20240101"
        (Sample.env Sample.CREATE) st1 = (Return r, st2)
    ∧ tags r = Sample.provenance.
Proof.
  destruct (tag_then_get_backup_resource_tags Sample.backed_up_db1
              (Sample.env Sample.CREATE) [] Sample.tagged_backup_db1
              "db-1-20240101" "shelvery"
              {| DBSnapshots := [Sample.snap "db-1-20240101" 9];
                 SnapshotsMarker := None |}
              (Sample.snap "db-1-20240101" 9) [])
    as (st1 & r & st2 & Htag & Hget & _ & _ & _ & Hsame).
  - reflexivity.
  - vm_compute. reflexivity.
  - reflexivity.
  - vm_compute. reflexivity.
  - exists st1, r, st2. repeat (split; [assumption|]).
    apply Hsame. vm_compute. set_solver.
Defined.

(** C8, as the spec states it, fails: on a snapshot that already carries
    the tag [owner], the tags read back are not the tags written. *)
Lemma tag_then_get_backup_resource_keeps_other_tags :
  ∃ st1 r st2,
    tag_backup_resource Catalog.provider Sample.tagged_backup_db1
      (Sample.env Sample.CREATE) (Sample.start Sample.owner_tagged_db1)
      = (Return (), st1)
    ∧ get_backup_resource Catalog.provider "us-east-1" "db-1-20240101"
        (Sample.env Sample.CREATE) st1 = (Return r, st2)
    ∧ tags r !! "owner" = Some "dba"
    ∧ tags r ≠ tags Sample.tagged_backup_db1.
Proof.
  eexists _, _, _. split; [vm_compute; reflexivity|].
  split; [vm_compute; reflexivity|].
  split; [vm_compute; reflexivity|].
  intros Hsame. apply (f_equal (λ d, d !! "owner")) in Hsame.
  vm_compute in Hsame. discriminate.
Qed.

(** ** Copying a backup to another region *)

(** X1.  [copy_backup_to_region] looks the snapshot up in the session's region
    and issues one [copy_db_snapshot] call on the client of the target
    region: the source is the snapshot's ARN, the target identifier is
    [backup_id] itself, [CopyTags] is off.  When the provider accepts the
    copy the method returns [backup_id]; it issues no tagging call. *)
Theorem copy_backup_to_region_keeps_id
    {W : Type} (P : Provider W) (backup_id region : string)
    (env : Env) (st : state W) (resp : DBSnapshotMessage)
    (s : DBSnapshot) (rest : list DBSnapshot) :
  let asked := DescribeDBSnapshots.by_id (Some backup_id) in
  api_describe_db_snapshots P (world st) (region_name env) asked = inr resp →
  DBSnapshots resp = s :: rest →
  let a :=
    {| CopyDBSnapshot.SourceDBSnapshotIdentifier := Some (DBSnapshotArn s);
       CopyDBSnapshot.TargetDBSnapshotIdentifier := Some backup_id;
       CopyDBSnapshot.SourceRegion := Some (region_name env);
       CopyDBSnapshot.CopyTags := false |} in
  let calls :=
    trace st ++
    [{| call_region := region_name env;
        call_request := describe_db_snapshots_call asked |};
     {| call_region := region; call_request := copy_db_snapshot_call a |}] in
  copy_backup_to_region P backup_id region env st =
    match api_copy_db_snapshot P (world st) region a with
    | inr w' => (Return backup_id, {| world := w'; trace := calls |})
    | inl code => (Raise (ClientError code), {| world := world st; trace := calls |})
    end.
Proof.
  intros asked Hresp Hlist a calls.
  unfold copy_backup_to_region. unfold_calls. fold asked. rewrite Hresp. cbn.
  rewrite Hlist. cbn. fold a. subst calls. rewrite <- !app_assoc. cbn.
  destruct (api_copy_db_snapshot P (world st) region a); done.
Qed.

Lemma copy_backup_to_region_keeps_id_witness :
  let run := copy_backup_to_region Catalog.provider "db-1-20240101" "eu-west-1"
               (Sample.env Sample.CREATE) (Sample.start Sample.marked_db1) in
  fst run = Return "db-1-20240101"
  ∧ Catalog.list_tags_for_resource (world (snd run)) "eu-west-1"
      (Catalog.snapshot_arn "eu-west-1" "db-1-20240101") = inr [].
Proof.
  cbv zeta.
  rewrite (copy_backup_to_region_keeps_id Catalog.provider "db-1-20240101"
             "eu-west-1" (Sample.env Sample.CREATE) (Sample.start Sample.marked_db1)
             {| DBSnapshots := [Sample.snap "db-1-20240101" 9];
                SnapshotsMarker := None |}
             (Sample.snap "db-1-20240101" 9) []).
  - vm_compute. split; reflexivity.
  - vm_compute. reflexivity.
  - reflexivity.
Defined.

(** ** Listing the backups of one page *)

Section Backups.

Context {W : Type} (P : Provider W).

Lemma shelvery_backups_filter (marker_tag backup_tag_prefix rds_client : string)
    (env : Env) (tag_list : DBSnapshot → list Tag) (all_snapshots : list DBSnapshot) :
  ∀ (all_backups : list BackupResource) (st : state W),
    Forall (λ s, api_list_tags_for_resource P (world st) rds_client (DBSnapshotArn s)
                 = inr (tag_list s)) all_snapshots →
    ∃ calls,
      shelvery_backups P marker_tag backup_tag_prefix rds_client all_snapshots
        all_backups env st =
        (Return (all_backups ++
                 ((λ s, construct backup_tag_prefix (DBSnapshotIdentifier s)
                          (dict_of_tags (tag_list s)))
                    <$> filter (λ s, has_key marker_tag (tag_list s)) all_snapshots)),
         {| world := world st; trace := calls |}).
Proof.
  induction all_snapshots as [|s rest IH]; intros all_backups st Htags.
  - exists (trace st). destruct st. cbn. by rewrite app_nil_r.
  - apply Forall_cons in Htags as [Hs Hrest]. cbn.
    unfold mbind, M_bind, list_tags_for_resource, read_call. rewrite Hs.
    destruct (decide (has_key marker_tag (tag_list s))) as [Hkey|Hkey].
    + rewrite (proj2 (dict_mem_has_key _ _) Hkey).
      edestruct (IH (all_backups ++
                       [construct backup_tag_prefix (DBSnapshotIdentifier s)
                          (dict_of_tags (tag_list s))])
        {| world := world st;
           trace := issued st rds_client
                      (list_tags_for_resource_call (DBSnapshotArn s)) |})
        as [calls Hloop]; [exact Hrest|].
      exists calls. rewrite Hloop. cbn. by rewrite <- app_assoc.
    + destruct (dict_mem marker_tag (dict_of_tags (tag_list s))) eqn:Hmem;
        [by apply dict_mem_has_key in Hmem|].
      edestruct (IH all_backups
        {| world := world st;
           trace := issued st rds_client
                      (list_tags_for_resource_call (DBSnapshotArn s)) |})
        as [calls Hloop]; [exact Hrest|].
      exists calls. by rewrite Hloop.
Qed.

End Backups.

(** X2.  When the first answer of [describe_db_snapshots] holds no marker,
    [get_existing_backups] returns, in the provider's order, one descriptor
    built by [BackupResource.construct] for each snapshot of that answer
    whose tag list holds the key [{prefix}:{BACKUP_MARKER_TAG}] itself, and
    none for the others. *)
Theorem get_existing_backups_one_page
    {W : Type} (P : Provider W) (MARKER_TAG : string) (fuel : nat)
    (backup_tag_prefix : string) (env : Env) (st : state W)
    (page : DBSnapshotMessage) (tag_list : DBSnapshot → list Tag) :
  api_describe_db_snapshots P (world st) (region_name env) DescribeDBSnapshots.none
    = inr page →
  SnapshotsMarker page = None →
  Forall (λ s, api_list_tags_for_resource P (world st) (region_name env)
                 (DBSnapshotArn s) = inr (tag_list s)) (DBSnapshots page) →
  fst (get_existing_backups P MARKER_TAG fuel backup_tag_prefix env st) =
    Return ((λ s, construct backup_tag_prefix (DBSnapshotIdentifier s)
                    (dict_of_tags (tag_list s)))
              <$> filter (λ s, has_key (backup_tag_prefix +:+ ":" +:+ MARKER_TAG)
                                 (tag_list s))
                    (DBSnapshots page)).
Proof.
  intros Hpage Hmarker Htags.
  edestruct (shelvery_backups_filter P (backup_tag_prefix +:+ ":" +:+ MARKER_TAG)
               backup_tag_prefix (region_name env) env tag_list (DBSnapshots page) []
               {| world := world st;
                  trace := issued st (region_name env)
                             (describe_db_snapshots_call DescribeDBSnapshots.none) |})
    as [calls Hloop]; [exact Htags|].
  unfold get_existing_backups, collect_all_snapshots, get_shelvery_backups_only,
    boto3_client.
  unfold mbind, M_bind. cbn.
  unfold describe_db_snapshots at 1. unfold read_call. rewrite Hpage.
  destruct fuel; cbn; rewrite Hmarker; cbn; rewrite Hloop; reflexivity.
Qed.

Lemma get_existing_backups_one_page_witness :
  fst (get_existing_backups Catalog.provider "backup-marker" 0 "shelvery"
         (Sample.env Sample.CREATE) (Sample.start Sample.marked_db1))
  = Return [construct "shelvery" "db-1-20240101" Sample.provenance].
Proof.
  rewrite (get_existing_backups_one_page Catalog.provider "backup-marker" 0
             "shelvery" (Sample.env Sample.CREATE) (Sample.start Sample.marked_db1)
             {| DBSnapshots := [Sample.snap "db-1-20231231" 8;
                                Sample.snap "db-1-20240101" 9];
                SnapshotsMarker := None |}
             (Sample.snapshot_tags Sample.marked_db1)).
  - vm_compute. reflexivity.
  - vm_compute. reflexivity.
  - reflexivity.
  - repeat constructor.
Defined.

(** ** The calls a method issues *)

Section Issues.

Context {W : Type} (P : Provider W) (Q : call → Prop) (env : Env).

Lemma issues_pure {A : Type} (m : M W A) :
  (∀ st, snd (m env st) = st) → issues Q m env.
Proof.
  intros Hpure st. exists []. rewrite Hpure, app_nil_r. by repeat split.
Qed.

Lemma issues_ret {A : Type} (a : A) : issues Q (mret a : M W A) env.
Proof. by apply issues_pure. Qed.

Lemma issues_raise {A : Type} (e : exn) : issues Q (raise e : M W A) env.
Proof. by apply issues_pure. Qed.

Lemma issues_out_of_fuel {A : Type} : issues Q (out_of_fuel : M W A) env.
Proof. by apply issues_pure. Qed.

Lemma issues_boto3_client (region : option string) :
  issues Q (boto3_client region : M W string) env.
Proof. by apply issues_pure. Qed.

Lemma issues_session_region_name : issues Q (session_region_name : M W string) env.
Proof. by apply issues_pure. Qed.

Lemma issues_get_rds_mode : issues Q (get_rds_mode : M W string) env.
Proof. by apply issues_pure. Qed.

Lemma issues_index0 {A : Type} (l : list A) : issues Q (index0 l : M W A) env.
Proof. destruct l; by apply issues_pure. Qed.

Lemma issues_dict_get (d : gmap string string) (k : string) :
  issues Q (dict_get d k : M W string) env.
Proof. unfold dict_get. destruct (d !! k); by apply issues_pure. Qed.

Lemma issues_bind {A B : Type} (m : M W A) (k : A → M W B) :
  issues Q m env → (∀ a, issues Q (k a) env) → issues Q (m ≫= k) env.
Proof.
  intros Hm Hk st. destruct (Hm st) as (calls & Htrace & Hcalls & Hworld).
  unfold mbind, M_bind. destruct (m env st) as [[a|e|] st'] eqn:Hrun; cbn in *.
  - destruct (Hk a st') as (calls' & Htrace' & Hcalls' & Hworld').
    exists (calls ++ calls'). rewrite Htrace', Htrace, app_assoc.
    split; [done|]. split; [by apply Forall_app|].
    intros [Hr Hr']%Forall_app. rewrite Hworld' by done. by apply Hworld.
  - by exists calls.
  - by exists calls.
Qed.

(** A step that issues no call and returns [a]. *)
Lemma issues_bind_pure {A B : Type} (m : M W A) (k : A → M W B) (a : A) :
  (∀ st, m env st = (Return a, st)) → issues Q (k a) env → issues Q (m ≫= k) env.
Proof.
  intros Hm Hk st. unfold mbind, M_bind. rewrite Hm. apply Hk.
Qed.

Lemma issues_read {A : Type} (rds_client : string) (r : request)
    (answer : W → string + A) :
  Q {| call_region := rds_client; call_request := r |} →
  issues Q (λ env' st, read_call rds_client r (answer (world st)) env' st) env.
Proof.
  intros HQ st. exists [{| call_region := rds_client; call_request := r |}].
  unfold read_call, issued. destruct (answer (world st)); cbn; by repeat constructor.
Qed.

Lemma issues_write (rds_client : string) (r : request) (answer : W → string + W) :
  is_mutation r = true →
  Q {| call_region := rds_client; call_request := r |} →
  issues Q (write_call rds_client r answer) env.
Proof.
  intros Hr HQ st. exists [{| call_region := rds_client; call_request := r |}].
  unfold write_call, issued. destruct (answer (world st)); cbn.
  all: split; [done|]; split; [by repeat constructor|].
  all: intros [Hread _]%Forall_cons; unfold is_read in Hread; cbn in Hread; congruence.
Qed.

End Issues.

(** Splits a method into its calls. *)
Ltac issues_step :=
  lazymatch goal with
  | |- issues _ (mbind _ (boto3_client ?r)) ?env =>
      apply (issues_bind_pure _ _ _ _ (default (region_name env) r)); [done|]
  | |- issues _ (mbind _ session_region_name) ?env =>
      apply (issues_bind_pure _ _ _ _ (region_name env)); [done|]
  | |- issues _ (mbind _ get_rds_mode) ?env =>
      apply (issues_bind_pure _ _ _ _ (rds_mode env)); [done|]
  | |- issues _ (mbind _ _) _ => apply issues_bind; [|intros ?]
  | |- issues _ (mret _) _ => apply issues_ret
  | |- issues _ (raise _) _ => apply issues_raise
  | |- issues _ out_of_fuel _ => apply issues_out_of_fuel
  | |- issues _ (boto3_client _) _ => apply issues_boto3_client
  | |- issues _ session_region_name _ => apply issues_session_region_name
  | |- issues _ get_rds_mode _ => apply issues_get_rds_mode
  | |- issues _ (index0 _) _ => apply issues_index0
  | |- issues _ (dict_get _ _) _ => apply issues_dict_get
  | |- issues _ (describe_db_snapshots _ _ _) _ =>
      apply (issues_read _ _ _ _ (λ w, api_describe_db_snapshots _ w _ _))
  | |- issues _ (describe_db_instances _ _ _) _ =>
      apply (issues_read _ _ _ _ (λ w, api_describe_db_instances _ w _ _))
  | |- issues _ (list_tags_for_resource _ _ _) _ =>
      apply (issues_read _ _ _ _ (λ w, api_list_tags_for_resource _ w _ _))
  | |- issues _ (create_db_snapshot _ _ _) _ => apply issues_write; [done|]
  | |- issues _ (copy_db_snapshot _ _ _) _ => apply issues_write; [done|]
  | |- issues _ (delete_db_snapshot _ _ _) _ => apply issues_write; [done|]
  | |- issues _ (add_tags_to_resource _ _ _) _ => apply issues_write; [done|]
  | |- issues _ (modify_db_snapshot_attribute _ _ _) _ => apply issues_write; [done|]
  | |- issues _ (if ?b then _ else _) _ => destruct b
  | |- issues _ (let _ := _ in _) _ => cbv zeta
  end.

Section IssuesLoops.

Context {W : Type} (P : Provider W) (Q : call → Prop) (env : Env).

Lemma issues_get_all_instances (fuel : nat) (rds_client : string) :
  holds_of_reads Q rds_client →
  issues Q (get_all_instances P fuel rds_client) env.
Proof.
  intros HQ. unfold get_all_instances. cbv zeta.
  issues_step; [issues_step; by apply HQ|].
  generalize ([] ++ DBInstances a). revert a.
  induction fuel as [|fuel IH]; intros temp db_instances; cbn;
    destruct (InstancesMarker temp); repeat issues_step; try by apply HQ.
  apply IH.
Qed.

Lemma issues_collect_all_snapshots (fuel : nat) (rds_client : string) :
  holds_of_reads Q rds_client →
  issues Q (collect_all_snapshots P fuel rds_client) env.
Proof.
  intros HQ. unfold collect_all_snapshots. cbv zeta.
  issues_step; [issues_step; by apply HQ|].
  generalize ([] ++ DBSnapshots a). revert a.
  induction fuel as [|fuel IH]; intros tmp all_snapshots; cbn;
    destruct (SnapshotsMarker tmp); repeat issues_step; try by apply HQ.
  apply IH.
Qed.

Lemma issues_tagged_entities (tag_name local_region rds_client : string)
    (db_instances : list DBInstance) (db_entities : list EntityResource.t) :
  holds_of_reads Q rds_client →
  issues Q (tagged_entities P tag_name local_region rds_client db_instances
              db_entities) env.
Proof.
  intros HQ. revert db_entities.
  induction db_instances as [|i rest IH]; intros db_entities; cbn;
    repeat issues_step; try by apply HQ.
  all: apply IH.
Qed.

Lemma issues_shelvery_backups (marker_tag backup_tag_prefix rds_client : string)
    (all_snapshots : list DBSnapshot) (all_backups : list BackupResource) :
  holds_of_reads Q rds_client →
  issues Q (shelvery_backups P marker_tag backup_tag_prefix rds_client
              all_snapshots all_backups) env.
Proof.
  intros HQ. revert all_backups.
  induction all_snapshots as [|s rest IH]; intros all_backups; cbn;
    repeat issues_step; try by apply HQ.
  all: apply IH.
Qed.

Lemma issues_get_entities_to_backup (fuel : nat) (tag_name : string) :
  holds_of_reads Q (region_name env) →
  issues Q (get_entities_to_backup P fuel tag_name) env.
Proof.
  intros HQ. unfold get_entities_to_backup, session_region_name, boto3_client.
  intros st. unfold mbind at 1 2, M_bind at 1 2. cbn. revert st.
  change (issues Q
    (get_all_instances P fuel (region_name env) ≫= λ db_instances,
       tagged_entities P tag_name (region_name env) (region_name env)
         db_instances []) env).
  issues_step; [by apply issues_get_all_instances|].
  by apply issues_tagged_entities.
Qed.

Lemma issues_get_existing_backups (MARKER_TAG : string) (fuel : nat)
    (backup_tag_prefix : string) :
  holds_of_reads Q (region_name env) →
  issues Q (get_existing_backups P MARKER_TAG fuel backup_tag_prefix) env.
Proof.
  intros HQ. unfold get_existing_backups, get_shelvery_backups_only, boto3_client.
  intros st. unfold mbind at 1, M_bind at 1. cbn. revert st.
  change (issues Q
    (collect_all_snapshots P fuel (region_name env) ≫= λ all_snapshots,
       shelvery_backups P (backup_tag_prefix +:+ ":" +:+ MARKER_TAG)
         backup_tag_prefix (region_name env) all_snapshots [] ≫= λ all_backups,
       mret all_backups) env).
  issues_step; [by apply issues_collect_all_snapshots|].
  issues_step; [by apply issues_shelvery_backups|]. issues_step.
Qed.

End IssuesLoops.

Lemma issues_reads_only {W A : Type} (m : M W A) :
  (∀ env, issues is_read m env) → reads_only m.
Proof.
  intros Hm env st. destruct (Hm env st) as (calls & Htrace & Hcalls & Hworld).
  exists calls. split; [|done].
  destruct (snd (m env st)) as [w calls']. cbn in *.
  by rewrite Htrace, Hworld.
Qed.

Lemma issues_calls_in {W A : Type} (regions : Env → list string) (m : M W A) :
  (∀ env, issues (λ c, call_region c ∈ regions env) m env) → calls_in regions m.
Proof.
  intros Hm env st. destruct (Hm env st) as (calls & Htrace & Hcalls & _).
  by exists calls.
Qed.

(** X3.  [get_entities_to_backup], [get_existing_backups],
    [is_backup_available] and [get_backup_resource] only read: against any
    provider, with any arguments and whatever the outcome (a result, an
    exception, a loop cut off), the catalog is left as it was and every call
    issued is a describe or list call. *)
Theorem lookups_only_read
    {W : Type} (P : Provider W) (MARKER_TAG : string) (fuel : nat)
    (tag_name backup_tag_prefix backup_region backup_id : string) :
  reads_only (get_entities_to_backup P fuel tag_name)
  ∧ reads_only (get_existing_backups P MARKER_TAG fuel backup_tag_prefix)
  ∧ reads_only (is_backup_available P backup_region backup_id)
  ∧ reads_only (get_backup_resource P backup_region backup_id).
Proof.
  repeat split; apply issues_reads_only; intros env.
  - apply issues_get_entities_to_backup. intros r Hr. exact Hr.
  - apply issues_get_existing_backups. intros r Hr. exact Hr.
  - unfold is_backup_available. repeat issues_step; reflexivity.
  - unfold get_backup_resource. repeat issues_step; reflexivity.
Qed.

(** X4.  The region of every call.  [backup_resource],
    [tag_backup_resource], [delete_backup], [get_entities_to_backup] and
    [get_existing_backups] take no region and send every call to the
    session's region; [is_backup_available], [share_backup_with_account]
    and [get_backup_resource] send every call to the region they are given;
    [copy_backup_to_region] calls the session's region and the target
    region only. *)
Theorem calls_go_to_the_expected_region
    {W : Type} (P : Provider W) (CREATE COPY MARKER_TAG : string) (fuel : nat)
    (b : BackupResource)
    (tag_name backup_tag_prefix backup_region backup_id account region : string) :
  calls_in (λ env, [region_name env]) (backup_resource P CREATE COPY b)
  ∧ calls_in (λ env, [region_name env]) (tag_backup_resource P b)
  ∧ calls_in (λ env, [region_name env]) (delete_backup P b)
  ∧ calls_in (λ env, [region_name env]) (get_entities_to_backup P fuel tag_name)
  ∧ calls_in (λ env, [region_name env])
      (get_existing_backups P MARKER_TAG fuel backup_tag_prefix)
  ∧ calls_in (λ _, [backup_region]) (is_backup_available P backup_region backup_id)
  ∧ calls_in (λ _, [backup_region])
      (share_backup_with_account P backup_region backup_id account)
  ∧ calls_in (λ _, [backup_region]) (get_backup_resource P backup_region backup_id)
  ∧ calls_in (λ env, [region_name env; region])
      (copy_backup_to_region P backup_id region).
Proof.
  repeat split; apply issues_calls_in; intros env.
  - unfold backup_resource, backup_from_instance, backup_from_latest_automated.
    repeat issues_step; cbn; set_solver.
  - unfold tag_backup_resource. repeat issues_step; cbn; set_solver.
  - unfold delete_backup. repeat issues_step; cbn; set_solver.
  - apply issues_get_entities_to_backup. intros r _. cbn. set_solver.
  - apply issues_get_existing_backups. intros r _. cbn. set_solver.
  - unfold is_backup_available. repeat issues_step; cbn; set_solver.
  - unfold share_backup_with_account. repeat issues_step; cbn; set_solver.
  - unfold get_backup_resource. repeat issues_step; cbn; set_solver.
  - unfold copy_backup_to_region. repeat issues_step; cbn; set_solver.
Qed.

(** ** The methods that change the catalog *)



(** X6.  Whatever the mode, a descriptor [backup_resource] returns is the
    request with [backup_id] set to the request's name; in particular the
    identifier of the automated snapshot a copy was taken from is not kept
    in it. *)
Theorem backup_resource_returns_request_named
    {W : Type} (P : Provider W) (CREATE COPY : string) (b r : BackupResource)
    (env : Env) (st st' : state W) :
  backup_resource P CREATE COPY b env st = (Return r, st') →
  r = set_backup_id b (name b).
Proof.
  unfold backup_resource, backup_from_instance, backup_from_latest_automated.
  unfold_calls. repeat case_match; simplify_eq; intros [= <- <-]; done.
Qed.

Lemma backup_resource_returns_request_named_witness :
  ∃ st',
    backup_resource Catalog.provider Sample.CREATE Sample.COPY Sample.request_db1
      (Sample.env Sample.COPY) (Sample.start Sample.automated_db1)
    = (Return {| name := Some "db-1-20240101"; entity_id := Some "db-1";
                 backup_id := Some "db-1-20240101"; tags := ∅ |}, st').
Proof.
  destruct (backup_resource Catalog.provider Sample.CREATE Sample.COPY
              Sample.request_db1 (Sample.env Sample.COPY)
              (Sample.start Sample.automated_db1)) as [[r| |] st'] eqn:Hrun;
    [|vm_compute in Hrun; discriminate..].
  exists st'.
  rewrite (backup_resource_returns_request_named _ _ _ _ _ _ _ _ Hrun).
  reflexivity.
Defined.

(** X7.  On the catalog provider, [tag_backup_resource] leaves every region
    other than the session's as it was.  A copy that
    [copy_backup_to_region] made in another region is therefore not tagged
    by it. *)
Theorem tag_backup_resource_leaves_other_regions
    (b : BackupResource) (env : Env) (st : state Catalog.t) (r : string) :
  r ≠ region_name env →
  Catalog.region_of (world (snd (tag_backup_resource Catalog.provider b env st))) r
  = Catalog.region_of (world st) r.
Proof.
  intros Hne. unfold tag_backup_resource. unfold_calls.
  destruct (Catalog.describe_db_snapshots _ _ _) as [|resp]; cbn; [done|].
  destruct (DBSnapshots resp) as [|s rest]; cbn; [done|].
  destruct (Catalog.add_tags_to_resource _ _ _) as [|w'] eqn:Hadd; cbn; [done|].
  unfold Catalog.add_tags_to_resource in Hadd. injection Hadd as <-.
  unfold Catalog.region_of, Catalog.with_region. cbn.
  by rewrite lookup_insert_ne.
Qed.

Lemma tag_backup_resource_leaves_other_regions_witness :
  let copied := snd (copy_backup_to_region Catalog.provider "db-1-20240101"
                       "eu-west-1" (Sample.env Sample.CREATE)
                       (Sample.start Sample.backed_up_db1)) in
  let tagged := snd (tag_backup_resource Catalog.provider Sample.tagged_backup_db1
                       (Sample.env Sample.CREATE) copied) in
  Catalog.list_tags_for_resource (world tagged) "eu-west-1"
    (Catalog.snapshot_arn "eu-west-1" "db-1-20240101") = inr []
  ∧ Catalog.list_tags_for_resource (world tagged) "us-east-1"
      (Catalog.snapshot_arn "us-east-1" "db-1-20240101")
    = inr (tags_of_dict Sample.provenance).
Proof.
  cbv zeta. split; [|vm_compute; reflexivity].
  unfold Catalog.list_tags_for_resource.
  rewrite tag_backup_resource_leaves_other_regions by (vm_compute; congruence).
  vm_compute. reflexivity.
Defined.

(** ** Discovery when a call fails *)

Section Failures.

Context {W : Type} (P : Provider W).

Lemma tagged_entities_error (tag_name local_region rds_client code : string)
    (env : Env) (tag_list : DBInstance → list Tag)
    (i : DBInstance) (post : list DBInstance) (pre : list DBInstance) :
  ∀ (db_entities : list EntityResource.t) (st : state W),
    Forall (λ j, api_list_tags_for_resource P (world st) rds_client (DBInstanceArn j)
                 = inr (tag_list j)) pre →
    api_list_tags_for_resource P (world st) rds_client (DBInstanceArn i) = inl code →
    fst (tagged_entities P tag_name local_region rds_client (pre ++ i :: post)
           db_entities env st) = Raise (ClientError code).
Proof.
  induction pre as [|j pre IH]; intros db_entities st Hpre Hi; cbn.
  - unfold mbind, M_bind, list_tags_for_resource, read_call. by rewrite Hi.
  - apply Forall_cons in Hpre as [Hj Hpre].
    unfold mbind, M_bind, list_tags_for_resource, read_call. rewrite Hj.
    destruct (dict_mem tag_name (dict_of_tags (tag_list j))); by apply IH.
Qed.

(** The calls [get_all_instances] has issued when it stops. *)
Lemma get_all_instances_loop_chain (rds_client : string) (env : Env) (fuel : nat) :
  ∀ (db_instances : list DBInstance) (temp : DBInstanceMessage) (st : state W),
    let run := get_all_instances_loop P fuel rds_client db_instances temp env st in
    world (snd run) = world st
    ∧ trace (snd run) =
        trace st ++
        ((λ marker, {| call_region := rds_client;
                       call_request := describe_db_instances_call marker |})
           <$> match InstancesMarker temp with
               | None => []
               | Some m => marker_chain P (world st) rds_client (Some m) fuel
               end).
Proof.
  induction fuel as [|fuel IH]; intros db_instances temp st; cbn.
  - destruct (InstancesMarker temp); cbn; by rewrite app_nil_r.
  - destruct (InstancesMarker temp) as [m|]; cbn; [|by rewrite app_nil_r].
    unfold mbind, M_bind, describe_db_instances, read_call, issued.
    destruct (api_describe_db_instances P (world st) rds_client (Some m))
      as [code|resp]; cbn; [done|].
    edestruct (IH (db_instances ++ DBInstances resp) resp) as [Hworld Htrace].
    rewrite Hworld, Htrace. cbn. split; [done|].
    rewrite <- app_assoc. cbn. by destruct (InstancesMarker resp).
Qed.

End Failures.

(** X8.  [get_entities_to_backup] gives no partial result: when the
    provider serves the instances but refuses to list the tags of one of
    them, the method ends in the provider's error, also when instances
    listed before it carried the marker tag. *)
Theorem get_entities_to_backup_fails_with_tag_lookup
    {W : Type} (P : Provider W) (fuel : nat) (tag_name code : string)
    (env : Env) (st : state W) (pages : list (list DBInstance))
    (tag_list : DBInstance → list Tag)
    (pre : list DBInstance) (i : DBInstance) (post : list DBInstance) :
  instance_pages P (world st) (region_name env) None pages →
  length pages ≤ S fuel →
  concat pages = pre ++ i :: post →
  Forall (λ j, api_list_tags_for_resource P (world st) (region_name env)
                 (DBInstanceArn j) = inr (tag_list j)) pre →
  api_list_tags_for_resource P (world st) (region_name env) (DBInstanceArn i)
    = inl code →
  fst (get_entities_to_backup P fuel tag_name env st) = Raise (ClientError code).
Proof.
  intros Hpages Hfuel Hsplit Hpre Hi.
  destruct (get_all_instances_pages P (region_name env) env fuel pages st Hfuel Hpages)
    as [calls Hall].
  unfold get_entities_to_backup, session_region_name, boto3_client, mbind, M_bind.
  cbn. rewrite Hall, Hsplit.
  by apply (tagged_entities_error P tag_name _ _ code env tag_list).
Qed.

Lemma get_entities_to_backup_fails_with_tag_lookup_witness :
  fst (get_entities_to_backup (Sample.denied (DBInstanceArn Sample.db2)) 1
         "shelvery:run" (Sample.env Sample.CREATE)
         (Sample.start Sample.three_instances))
  = Raise (ClientError "AccessDenied").
Proof.
  apply (get_entities_to_backup_fails_with_tag_lookup
           (Sample.denied (DBInstanceArn Sample.db2)) 1 "shelvery:run" "AccessDenied"
           (Sample.env Sample.CREATE) (Sample.start Sample.three_instances)
           [[Sample.db1; Sample.db2]; [Sample.db3]]
           (Sample.listed_tags Sample.three_instances)
           [Sample.db1] Sample.db2 [Sample.db3]).
  - vm_compute. repeat split.
  - cbn. lia.
  - reflexivity.
  - repeat constructor.
  - vm_compute. reflexivity.
Defined.

(** X9.  [get_all_instances] follows the provider's markers: its first
    request carries no marker, every later request carries the marker of
    the answer before it, and it stops at the first answer without a marker
    or the first error.  With fuel for [S fuel] requests the calls it has
    issued are exactly that chain; the catalog is left as it was. *)
Theorem get_all_instances_follows_markers
    {W : Type} (P : Provider W) (fuel : nat) (rds_client : string)
    (env : Env) (st : state W) :
  let run := get_all_instances P fuel rds_client env st in
  world (snd run) = world st
  ∧ trace (snd run) =
      trace st ++
      ((λ marker, {| call_region := rds_client;
                     call_request := describe_db_instances_call marker |})
         <$> marker_chain P (world st) rds_client None (S fuel)).
Proof.
  cbv zeta. unfold get_all_instances, mbind, M_bind, describe_db_instances,
    read_call, issued. cbn.
  destruct (api_describe_db_instances P (world st) rds_client None)
    as [code|resp]; cbn; [done|].
  edestruct (get_all_instances_loop_chain P rds_client env fuel
               (DBInstances resp) resp) as [Hworld Htrace].
  rewrite Hworld, Htrace. cbn. split; [done|]. by rewrite <- app_assoc.
Qed.

(** On the sample catalog, whose three instances come two to a page, the
    second request carries the marker of the first answer. *)
Example get_all_instances_sample_calls :
  trace (snd (get_all_instances Catalog.provider 5 "us-east-1"
                (Sample.env Sample.CREATE) (Sample.start Sample.three_instances)))
  = [ {| call_region := "us-east-1";
         call_request := describe_db_instances_call None |};
      {| call_region := "us-east-1";
         call_request := describe_db_instances_call (Some "db-3") |} ].
Proof. vm_compute. reflexivity. Qed.

(** ** Tag lists and dicts *)

(** X10.  [dict(...)] of a tag list, key by key: a key no tag of the list
    has is absent from the dict; a key some tag has is mapped to the value
    of the last tag of the list with that key. *)
Theorem dict_of_tags_last_value (tag_list : list Tag) (k : string) :
  match dict_of_tags tag_list !! k with
  | None => ¬ has_key k tag_list
  | Some v =>
      ∃ before t after,
        tag_list = before ++ t :: after
        ∧ Key t = k ∧ Value t = v ∧ ¬ has_key k after
  end.
Proof.
  induction tag_list as [|t tag_list IH] using rev_ind.
  - unfold dict_of_tags, has_key. cbn. rewrite ?lookup_empty. by intros ?%Exists_nil.
  - rewrite dict_of_tags_snoc. destruct (decide (Key t = k)) as [<-|Hne].
    + rewrite lookup_insert_eq. exists tag_list, t, [].
      repeat split. unfold has_key. by intros ?%Exists_nil.
    + rewrite lookup_insert_ne by done.
      destruct (dict_of_tags tag_list !! k) as [v|].
      * destruct IH as (before & t' & after & -> & Hkey & Hvalue & Hafter).
        exists before, t', (after ++ [t]). rewrite <- app_assoc. repeat split; try done.
        unfold has_key in *. rewrite Exists_app, Exists_cons, Exists_nil. tauto.
      * unfold has_key in *. rewrite Exists_app, Exists_cons, Exists_nil. tauto.
Qed.

(** X11.  When [backup_id] resolves, the last call of [tag_backup_resource]
    is [add_tags_to_resource] on the ARN of the first snapshot answered, in
    the session's region, and its tag list holds the request's tags once
    each: one entry per key, an entry [(k, v)] exactly when [tags[k]] is
    [v], and read back as a dict it is the request's tags. *)
Theorem tag_backup_resource_sends_each_tag_once
    {W : Type} (P : Provider W) (b : BackupResource) (env : Env) (st : state W)
    (resp : DBSnapshotMessage) (s : DBSnapshot) (rest : list DBSnapshot) :
  api_describe_db_snapshots P (world st) (region_name env)
    (DescribeDBSnapshots.by_id (backup_id b)) = inr resp →
  DBSnapshots resp = s :: rest →
  ∃ sent,
    last (trace (snd (tag_backup_resource P b env st))) =
      Some {| call_region := region_name env;
              call_request := add_tags_to_resource_call
                {| AddTagsToResource.ResourceName := DBSnapshotArn s;
                   AddTagsToResource.Tags := sent |} |}
    ∧ NoDup (Key <$> sent)
    ∧ length sent = size (tags b)
    ∧ (∀ k v, {| Key := k; Value := v |} ∈ sent ↔ tags b !! k = Some v)
    ∧ dict_of_tags sent = tags b.
Proof.
  intros Hresp Hlist. exists (tags_of_dict (tags b)). split; [|split; [|split; [|split]]].
  - unfold tag_backup_resource. unfold_calls. rewrite Hresp. cbn. rewrite Hlist. cbn.
    destruct (api_add_tags_to_resource _ _ _ _); cbn; by rewrite last_snoc.
  - unfold tags_of_dict. rewrite <- list_fmap_compose.
    apply NoDup_fst_map_to_list.
  - unfold tags_of_dict. by rewrite length_fmap, length_map_to_list.
  - intros k v. unfold tags_of_dict. rewrite list_elem_of_fmap. split.
    + intros ([k' v'] & [= -> ->] & Hin). by apply elem_of_map_to_list.
    + intros Hin. exists (k, v). split; [done|]. by apply elem_of_map_to_list.
  - apply dict_of_tags_of_dict.
Qed.

Lemma tag_backup_resource_sends_each_tag_once_witness :
  ∃ sent,
    last (trace (snd (tag_backup_resource Catalog.provider Sample.tagged_backup_db1
                        (Sample.env Sample.CREATE)
                        (Sample.start Sample.backed_up_db1)))) =
      Some {| call_region := "us-east-1";
              call_request := add_tags_to_resource_call
                {| AddTagsToResource.ResourceName :=
                     Catalog.snapshot_arn "us-east-1" "db-1-20240101";
                   AddTagsToResource.Tags := sent |} |}
    ∧ length sent = 3
    ∧ dict_of_tags sent = Sample.provenance.
Proof.
  destruct (tag_backup_resource_sends_each_tag_once Catalog.provider
              Sample.tagged_backup_db1 (Sample.env Sample.CREATE)
              (Sample.start Sample.backed_up_db1)
              {| DBSnapshots := [Sample.snap "db-1-20240101" 9];
                 SnapshotsMarker := None |}
              (Sample.snap "db-1-20240101" 9) [])
    as (sent & Hlast & _ & Hlength & _ & Hdict).
  - vm_compute. reflexivity.
  - reflexivity.
  - exists sent. split; [exact Hlast|]. split; [|exact Hdict].
    rewrite Hlength. vm_compute. reflexivity.
Defined.
